(** * Overlay engine of the roaming shell: a shallow embedding of
    [terminaloverlay.cpp] and the properties of its prediction,
    notification and manager classes.

    Conventions of the embedding.
    - [uint64_t] values are integers in [0, 2^64); every unsigned operation
      of the source is followed by its wrap-around [u64].
    - [int] is 32 bits wide and [long] 64 bits. Coordinates and the
      prediction score are [int] values kept as integers; signed overflow,
      which C++ leaves undefined, is outside the embedding.
    - [double] values are IEEE 754 binary64 numbers (primitive floats).
    - [timestamp()] is read once per operation: every function that reads
      the clock takes the reading [now] as an argument.
    - an [assert] of the source is evaluated in a debug build and compiled
      out in a release build; a failed assertion ends the call ([None]). *)

From Stdlib Require Import ZArith List Bool Lia.
From Stdlib Require Import PrimFloat FloatOps SpecFloat FloatAxioms.
From Stdlib Require Uint63.
From Stdlib Require String Ascii.
Import (notations) String.
Import ListNotations.
Open Scope list_scope.
Open Scope Z_scope.

(** ** Machine integers *)

Definition u64 (z : Z) : Z := z mod 2 ^ 64.

Definition UINT64_MAX : Z := 2 ^ 64 - 1.

Definition INT_MAX : Z := 2147483647.

Definition LONG_MIN : Z := - 2 ^ 63.

(** Conversion of an integer to the 32-bit [int]: the value modulo 2^32,
    read as a two's complement number. *)
Definition to_int (z : Z) : Z :=
  let r := z mod 2 ^ 32 in
  if r <? 2 ^ 31 then r else r - 2 ^ 32.

(** ** Results of fallible calls *)

Inductive Build := DebugBuild | ReleaseBuild.

(** [assert( cond )]: checked in a debug build only. *)
Definition c_assert (b : Build) (cond : bool) : option unit :=
  match b with
  | ReleaseBuild => Some tt
  | DebugBuild => if cond then Some tt else None
  end.

Definition bind {A B : Type} (m : option A) (k : A -> option B) : option B :=
  match m with
  | Some a => k a
  | None => None
  end.

Notation "x <- m ;; k" := (bind m (fun x => k))
  (at level 61, m at next level, right associativity).
Notation "m ;;; k" := (bind m (fun _ => k))
  (at level 61, right associativity).

(** ** The framebuffer collaborator *)

(** Modelled from the spec: [Cell], [Renditions], [DrawState] and
    [Framebuffer] are declared by the terminal emulator, whose files are not
    part of the overlay sources. Section 6 of the specification gives their
    fields: a cell has [contents] (a sequence of wide characters), a [width],
    [renditions] (bold, underlined, foreground and background colour) and
    value equality; the draw state has a width, a height, a cursor, and the
    [cursor_visible] and [origin_mode] flags. *)
Record Renditions := {
  bold : bool;
  underlined : bool;
  foreground_color : Z;
  background_color : Z
}.

Record Cell := {
  contents : list Z;
  width : Z;
  renditions : Renditions
}.

Record DrawState := {
  get_width : Z;
  get_height : Z;
  get_cursor_row : Z;
  get_cursor_col : Z;
  cursor_visible : bool;
  origin_mode : bool
}.

Record Framebuffer := {
  ds : DrawState;
  rows : list (list Cell)
}.

(** Modelled from the spec: the constructor [Cell( background_color )] of the
    emulator: an empty cell of width one with plain renditions on the given
    background. *)
Definition Cell_new (background : Z) : Cell :=
  {| contents := [];
     width := 1;
     renditions := {| bold := false; underlined := false;
                      foreground_color := 0; background_color := background |} |}.

Definition Renditions_eqb (a b : Renditions) : bool :=
  Bool.eqb (bold a) (bold b) && Bool.eqb (underlined a) (underlined b)
  && (foreground_color a =? foreground_color b)
  && (background_color a =? background_color b).

Fixpoint contents_eqb (a b : list Z) : bool :=
  match a, b with
  | [], [] => true
  | x :: a', y :: b' => (x =? y) && contents_eqb a' b'
  | _, _ => false
  end.

(** [operator==] on cells: value equality. *)
Definition Cell_eqb (a b : Cell) : bool :=
  contents_eqb (contents a) (contents b) && (width a =? width b)
  && Renditions_eqb (renditions a) (renditions b).

(** Modelled from the spec: [get_cell( row, col )]. The grid is a list of
    rows; a position outside the stored grid (undefined in the source) reads
    as an empty cell. *)
Definition get_cell (fb : Framebuffer) (row col : Z) : Cell :=
  if (row <? 0) || (col <? 0) then Cell_new 0
  else nth (Z.to_nat col) (nth (Z.to_nat row) (rows fb) []) (Cell_new 0).

Fixpoint list_update {A : Type} (l : list A) (n : nat) (f : A -> A) : list A :=
  match l, n with
  | [], _ => []
  | x :: l', O => f x :: l'
  | x :: l', S n' => x :: list_update l' n' f
  end.

(** Modelled from the spec: assignment through [get_mutable_cell( row, col )].
    A position outside the stored grid is not written. *)
Definition set_cell (fb : Framebuffer) (row col : Z) (c : Cell) : Framebuffer :=
  if (row <? 0) || (col <? 0) then fb
  else {| ds := ds fb;
          rows := list_update (rows fb) (Z.to_nat row)
                    (fun r => list_update r (Z.to_nat col) (fun _ => c)) |}.

Definition set_ds (fb : Framebuffer) (d : DrawState) : Framebuffer :=
  {| ds := d; rows := rows fb |}.

Definition set_cursor_visible (d : DrawState) (v : bool) : DrawState :=
  {| get_width := get_width d; get_height := get_height d;
     get_cursor_row := get_cursor_row d; get_cursor_col := get_cursor_col d;
     cursor_visible := v; origin_mode := origin_mode d |}.

(** The cursor motions of the draw state, [move_row( N, relative )] and
    [move_col( N, relative, implicit )], belong to the emulator: the overlay
    code only calls them, so they are an interface of the development. *)
Class CursorMotion := {
  move_row : Z -> bool -> DrawState -> DrawState;
  move_col : Z -> bool -> bool -> DrawState -> DrawState
}.

Definition clamp_coord (n limit : Z) : Z :=
  if n <? 0 then 0 else if limit <=? n then limit - 1 else n.

(** An emulator for the examples, which keeps the cursor on the screen:
    an absolute motion stores the requested coordinate, a relative one adds
    to the current coordinate, and the result is brought back into the
    grid. *)
Definition snapping_motion : CursorMotion := {|
  move_row N relative d :=
    let target := if relative then get_cursor_row d + N else N in
    {| get_width := get_width d; get_height := get_height d;
       get_cursor_row := clamp_coord target (get_height d);
       get_cursor_col := get_cursor_col d;
       cursor_visible := cursor_visible d; origin_mode := origin_mode d |};
  move_col N relative implicit d :=
    let target := if relative then get_cursor_col d + N else N in
    {| get_width := get_width d; get_height := get_height d;
       get_cursor_row := get_cursor_row d;
       get_cursor_col := clamp_coord target (get_width d);
       cursor_visible := cursor_visible d; origin_mode := origin_mode d |}
|}.

(** ** Overlay elements *)

Inductive Validity := Pending | Correct | IncorrectOrExpired.

Definition Validity_eqb (a b : Validity) : bool :=
  match a, b with
  | Pending, Pending | Correct, Correct
  | IncorrectOrExpired, IncorrectOrExpired => true
  | _, _ => false
  end.

(** The base class: both times are [uint64_t] milliseconds. *)
Record OverlayElementBase := {
  expiration_time : Z;
  prediction_time : Z
}.

Record OverlayCell := {
  cell_base : OverlayElementBase;
  row : Z;
  col : Z;
  replacement : Cell;
  flag : bool
}.

Record ConditionalOverlayCell := {
  overlay_cell : OverlayCell;
  original_contents : Cell
}.

Record CursorMove := {
  move_base : OverlayElementBase;
  new_row : Z;
  new_col : Z
}.

(** The class hierarchy as a tagged variant; the two conditional classes
    override [get_validity], the other two inherit the base method. *)
Inductive OverlayElement :=
| AnOverlayCell (c : OverlayCell)
| AConditionalOverlayCell (c : ConditionalOverlayCell)
| ACursorMove (m : CursorMove)
| AConditionalCursorMove (m : CursorMove).

Definition element_base (e : OverlayElement) : OverlayElementBase :=
  match e with
  | AnOverlayCell c => cell_base c
  | AConditionalOverlayCell c => cell_base (overlay_cell c)
  | ACursorMove m => move_base m
  | AConditionalCursorMove m => move_base m
  end.

(** Modelled from the spec: the constructor of the base class, declared in
    the class header: it stores the expiration time and stamps the element
    with the clock reading of its creation. *)
Definition OverlayElement_new (now expiration : Z) : OverlayElementBase :=
  {| expiration_time := expiration; prediction_time := now |}.

(** [OverlayElement::get_validity] *)
Definition OverlayElement_get_validity (now : Z) (b : OverlayElementBase)
  : Validity :=
  if now <? expiration_time b then Pending else IncorrectOrExpired.

Definition underline (c : Cell) : Cell :=
  {| contents := contents c; width := width c;
     renditions := {| bold := bold (renditions c); underlined := true;
                      foreground_color := foreground_color (renditions c);
                      background_color := background_color (renditions c) |} |}.

(** [OverlayCell::apply] *)
Definition OverlayCell_apply (c : OverlayCell) (fb : Framebuffer) : Framebuffer :=
  if (row c >=? get_height (ds fb)) || (col c >=? get_width (ds fb)) then fb
  else if negb (Cell_eqb (get_cell fb (row c) (col c)) (replacement c)) then
    let fb1 := set_cell fb (row c) (col c) (replacement c) in
    if flag c
    then set_cell fb1 (row c) (col c) (underline (get_cell fb1 (row c) (col c)))
    else fb1
  else fb.

(** [ConditionalOverlayCell::get_validity] *)
Definition ConditionalOverlayCell_get_validity (now : Z)
    (c : ConditionalOverlayCell) (fb : Framebuffer) : Validity :=
  let oc := overlay_cell c in
  if (row oc >=? get_height (ds fb)) || (col oc >=? get_width (ds fb))
  then IncorrectOrExpired
  else
    let current := get_cell fb (row oc) (col oc) in
    if (now <? expiration_time (cell_base oc))
       && Cell_eqb current (original_contents c)
    then Pending
    else if Cell_eqb current (replacement oc) then Correct
    else IncorrectOrExpired.

(** [CursorMove::apply] *)
Definition CursorMove_apply {M : CursorMotion} (b : Build) (m : CursorMove)
    (fb : Framebuffer) : option Framebuffer :=
  c_assert b (new_row m <? get_height (ds fb)) ;;;
  c_assert b (new_col m <? get_width (ds fb)) ;;;
  c_assert b (negb (origin_mode (ds fb))) ;;;
  let d1 := move_row (new_row m) false (ds fb) in
  let d2 := move_col (new_col m) false false d1 in
  Some (set_ds fb d2).

(** [ConditionalCursorMove::get_validity] *)
Definition ConditionalCursorMove_get_validity (now : Z) (m : CursorMove)
    (fb : Framebuffer) : Validity :=
  if (new_row m >=? get_height (ds fb)) || (new_col m >=? get_width (ds fb))
  then IncorrectOrExpired
  else if now <? expiration_time (move_base m) then Pending
  else if (get_cursor_col (ds fb) =? new_col m)
          && (get_cursor_row (ds fb) =? new_row m)
  then Correct
  else IncorrectOrExpired.

(** Virtual dispatch of [get_validity]. *)
Definition get_validity (now : Z) (e : OverlayElement) (fb : Framebuffer)
  : Validity :=
  match e with
  | AnOverlayCell c => OverlayElement_get_validity now (cell_base c)
  | AConditionalOverlayCell c => ConditionalOverlayCell_get_validity now c fb
  | ACursorMove m => OverlayElement_get_validity now (move_base m)
  | AConditionalCursorMove m => ConditionalCursorMove_get_validity now m fb
  end.

(** Virtual dispatch of [apply]. *)
Definition element_apply {M : CursorMotion} (b : Build) (e : OverlayElement)
    (fb : Framebuffer) : option Framebuffer :=
  match e with
  | AnOverlayCell c => Some (OverlayCell_apply c fb)
  | AConditionalOverlayCell c => Some (OverlayCell_apply (overlay_cell c) fb)
  | ACursorMove m => CursorMove_apply b m fb
  | AConditionalCursorMove m => CursorMove_apply b m fb
  end.

(** [OverlayEngine::apply]: every element in list order. *)
Fixpoint OverlayEngine_apply {M : CursorMotion} (b : Build)
    (elements : list OverlayElement) (fb : Framebuffer) : option Framebuffer :=
  match elements with
  | [] => Some fb
  | x :: rest => fb1 <- element_apply b x fb ;; OverlayEngine_apply b rest fb1
  end.

(** ** The prediction engine *)

Record PredictionEngine := {
  elements : list OverlayElement;
  score : Z;
  SRTT : float;
  RTTVAR : float;
  RTT_hit : bool;
  flagging : bool
}.

(** Conversion of a [uint64_t] to [double]: the nearest binary64 number. The
    two 32-bit halves convert exactly and the high half scales exactly, so
    only the addition rounds, once. *)
Definition double_of_uint64 (z : Z) : float :=
  (of_uint63 (Uint63.of_Z (z / 2 ^ 32)) * 4294967296
   + of_uint63 (Uint63.of_Z (z mod 2 ^ 32)))%float.

(** The integer [ceil( x )] of a finite double, [None] for a NaN or an
    infinity. A finite double is [m * 2^e] with a sign. *)
Definition ceil_Z (x : float) : option Z :=
  match Prim2SF x with
  | S754_zero _ => Some 0
  | S754_finite s m e =>
      let v := if s then Z.neg m else Z.pos m in
      Some (if 0 <=? e then v * 2 ^ e else - ((- v) / 2 ^ (- e)))
  | S754_infinity _ => None
  | S754_nan => None
  end.

(** [lrint( ceil( x ) )] as a [long]. [ceil] yields an integral double, which
    [lrint] converts exactly when it fits a [long]; for every other argument
    C leaves the result unspecified, and the conversion instruction of the
    usual 64-bit targets yields [LONG_MIN]. *)
Definition lrint_ceil (x : float) : Z :=
  match ceil_Z x with
  | Some n => if (LONG_MIN <=? n) && (n <? 2 ^ 63) then n else LONG_MIN
  | None => LONG_MIN
  end.

(** [PredictionEngine::prediction_len] *)
Definition prediction_len (pe : PredictionEngine) : Z :=
  let RTO := u64 (lrint_ceil (1.25 * SRTT pe + 8 * RTTVAR pe)%float) in
  let RTO := if RTO <? 20 then 20 else if RTO >? 2000 then 2000 else RTO in
  to_int RTO.

Definition alpha : float := (1 / 8)%float.
Definition beta : float := (1 / 4)%float.

(** The body of the [Correct] branch of [cull]: one round-trip sample [R]. *)
Definition update_RTT (R : float) (pe : PredictionEngine) : PredictionEngine :=
  if negb (RTT_hit pe) then
    {| elements := elements pe; score := score pe;
       SRTT := R; RTTVAR := (R / 2)%float; RTT_hit := true;
       flagging := flagging pe |}
  else
    let rttvar := ((1 - beta) * RTTVAR pe + beta * abs (SRTT pe - R))%float in
    let srtt := ((1 - alpha) * SRTT pe + alpha * R)%float in
    {| elements := elements pe; score := score pe;
       SRTT := srtt; RTTVAR := rttvar; RTT_hit := RTT_hit pe;
       flagging := flagging pe |}.

(** The [while] loop of [cull] over the elements not yet visited; the result
    is the list of elements left in place and the engine with its timers. *)
Fixpoint cull_loop (now : Z) (fb : Framebuffer) (l : list OverlayElement)
    (pe : PredictionEngine) : list OverlayElement * PredictionEngine :=
  match l with
  | [] => ([], pe)
  | i :: rest =>
      let pe1 :=
        if Validity_eqb (get_validity now i fb) Correct
        then update_RTT
               (double_of_uint64 (u64 (now - prediction_time (element_base i))))
               pe
        else pe in
      if negb (Validity_eqb (get_validity now i fb) Pending)
      then cull_loop now fb rest pe1
      else let '(kept, pe2) := cull_loop now fb rest pe1 in (i :: kept, pe2)
  end.

Definition set_flagging (pe : PredictionEngine) (f : bool) : PredictionEngine :=
  {| elements := elements pe; score := score pe; SRTT := SRTT pe;
     RTTVAR := RTTVAR pe; RTT_hit := RTT_hit pe; flagging := f |}.

Definition set_elements (pe : PredictionEngine) (l : list OverlayElement)
  : PredictionEngine :=
  {| elements := l; score := score pe; SRTT := SRTT pe;
     RTTVAR := RTTVAR pe; RTT_hit := RTT_hit pe; flagging := flagging pe |}.

Definition set_score (pe : PredictionEngine) (s : Z) : PredictionEngine :=
  {| elements := elements pe; score := s; SRTT := SRTT pe;
     RTTVAR := RTTVAR pe; RTT_hit := RTT_hit pe; flagging := flagging pe |}.

(** [PredictionEngine::cull] *)
Definition cull (now : Z) (fb : Framebuffer) (pe : PredictionEngine)
  : PredictionEngine :=
  let '(kept, pe1) := cull_loop now fb (elements pe) pe in
  let pe2 := set_elements pe1 kept in
  let pe3 := if (150 <? SRTT pe2)%float then set_flagging pe2 true else pe2 in
  if (SRTT pe3 <? 100)%float then set_flagging pe3 false else pe3.

(** [OverlayEngine::clear] on the prediction engine. *)
Definition clear (pe : PredictionEngine) : PredictionEngine :=
  set_elements pe [].

(** The [for] loop of [calculate_score] over the elements not yet visited. *)
Fixpoint calculate_score_loop (now : Z) (fb : Framebuffer)
    (l : list OverlayElement) (pe : PredictionEngine) : PredictionEngine :=
  match l with
  | [] => pe
  | i :: rest =>
      match get_validity now i fb with
      | Pending => calculate_score_loop now fb rest pe
      | Correct => calculate_score_loop now fb rest (set_score pe (score pe + 1))
      | IncorrectOrExpired => clear (set_score pe 0)
      end
  end.

(** [PredictionEngine::calculate_score] *)
Definition calculate_score (now : Z) (fb : Framebuffer) (pe : PredictionEngine)
  : PredictionEngine :=
  calculate_score_loop now fb (elements pe) pe.

(** [OverlayCell::OverlayCell]: the constructor sets every field but [flag],
    which keeps whatever value [indeterminate] it happens to hold. *)
Definition OverlayCell_new (now expiration s_row s_col background : Z)
    (indeterminate : bool) : OverlayCell :=
  {| cell_base := OverlayElement_new now expiration;
     row := s_row; col := s_col;
     replacement := Cell_new background;
     flag := indeterminate |}.

(** [CursorMove::CursorMove], also the constructor of the conditional move. *)
Definition CursorMove_new (now expiration s_new_row s_new_col : Z) : CursorMove :=
  {| move_base := OverlayElement_new now expiration;
     new_row := s_new_row; new_col := s_new_col |}.

Definition is_printable (the_byte : Z) : bool :=
  (0x20 <=? the_byte) && (the_byte <=? 0x7E).

Definition with_contents (c : Cell) (s : list Z) : Cell :=
  {| contents := s; width := width c; renditions := renditions c |}.

(** The prediction built for a printable byte at the predicted cursor: the
    conditional cell as the constructor makes it, then the three assignments
    to [replacement], its [contents] and [flag]. *)
Definition predicted_cell (now expiration the_byte : Z) (ccm : CursorMove)
    (fb : Framebuffer) (flagging_now : bool) : ConditionalOverlayCell :=
  let existing_cell := get_cell fb (new_row ccm) (new_col ccm) in
  let built :=
    OverlayCell_new now expiration (new_row ccm) (new_col ccm)
      (background_color (renditions existing_cell)) false in
  {| overlay_cell :=
       {| cell_base := cell_base built; row := row built; col := col built;
          replacement := with_contents existing_cell [the_byte];
          flag := flagging_now |};
     original_contents := existing_cell |}.

(** [ccm->new_col++; ccm->expiration_time = ...] on the front element. *)
Definition advance_cursor (expiration : Z) (ccm : CursorMove) : CursorMove :=
  {| move_base := {| expiration_time := expiration;
                     prediction_time := prediction_time (move_base ccm) |};
     new_row := new_row ccm;
     new_col := new_col ccm + 1 |}.

(** The first statement of [new_user_byte]: starting from scratch. *)
Definition anchor_cursor (now : Z) (fb : Framebuffer) (pe : PredictionEngine)
  : PredictionEngine :=
  match elements pe with
  | [] =>
      set_elements pe
        [AConditionalCursorMove
           (CursorMove_new now (u64 (now + prediction_len pe))
              (get_cursor_row (ds fb)) (get_cursor_col (ds fb)))]
  | _ :: _ => pe
  end.

(** [PredictionEngine::new_user_byte]. The front element is cast to a
    conditional cursor move; the call has no defined result ([None]) when it
    is of another class, which the assertion before the cast rules out. *)
Definition new_user_byte (now the_byte : Z) (fb : Framebuffer)
    (pe : PredictionEngine) : option PredictionEngine :=
  let pe1 := anchor_cursor now fb pe in
  match elements pe1 with
  | AConditionalCursorMove ccm :: rest =>
      if (new_row ccm >=? get_height (ds fb))
         || (new_col ccm >=? get_width (ds fb))
      then Some pe1
      else if is_printable the_byte && (new_col ccm <? get_width (ds fb) - 2)
      then
        let expiration := u64 (now + prediction_len pe1) in
        let coc := predicted_cell now expiration the_byte ccm fb (flagging pe1) in
        Some (set_elements pe1
                (AConditionalCursorMove (advance_cursor expiration ccm)
                   :: rest ++ [AConditionalOverlayCell coc]))
      else Some (set_score (clear pe1) 0)
  | _ => None
  end.

(** ** The notification engine *)

Record NotificationEngine := {
  notification_elements : list OverlayElement;
  needs_render : bool;
  last_word : Z;
  last_render : Z;
  message : list Z;
  message_expiration : Z
}.

(** [NotificationEngine::server_ping] *)
Definition server_ping (s_last_word : Z) (ne : NotificationEngine)
  : NotificationEngine :=
  {| notification_elements := notification_elements ne;
     needs_render :=
       if u64 (s_last_word - last_word ne) >? 4000 then true
       else needs_render ne;
     last_word := s_last_word;
     last_render := last_render ne;
     message := message ne;
     message_expiration := message_expiration ne |}.

(** [NotificationEngine::NotificationEngine] *)
Definition NotificationEngine_new (now : Z) : NotificationEngine :=
  {| notification_elements := []; needs_render := true; last_word := now;
     last_render := 0; message := []; message_expiration := 0 |}.

(** [NotificationEngine::set_notification_string] *)
Definition set_notification_string (now : Z) (s_message : list Z)
    (ne : NotificationEngine) : NotificationEngine :=
  {| notification_elements := notification_elements ne;
     needs_render := true;
     last_word := last_word ne;
     last_render := last_render ne;
     message := s_message;
     message_expiration := u64 (now + 1100) |}.

(** The first test of [NotificationEngine::render_notification]: when it
    holds the call returns at once and the banner is not rebuilt. *)
Definition render_notification_skips (now : Z) (ne : NotificationEngine)
  : bool :=
  (u64 (now - last_render ne) <? 250) && negb (needs_render ne).

(** The C library as [render_notification] uses it: the column width of a
    wide character ([wcwidth], -1 for a character that does not print), the
    text that [swprintf] makes of a double under the conversion [%.0f], and
    what [swprintf] leaves in a buffer of 128 wide characters when asked to
    write a given text. All three depend on the library and the locale. *)
Class WideCharLibrary := {
  wcwidth : Z -> Z;
  format_seconds : float -> list Z;
  swprintf_128 : list Z -> list Z
}.

(** A wide string literal: its characters as code points. *)
Definition wide (s : String.string) : list Z :=
  map (fun c => Z.of_nat (Ascii.nat_of_ascii c)) (String.list_ascii_of_string s).

Arguments wide s%_string.

(** A wide string read as a C string: up to its first null character. *)
Fixpoint c_str (s : list Z) : list Z :=
  match s with
  | [] => []
  | ch :: rest => if ch =? 0 then [] else ch :: c_str rest
  end.

(** The three [swprintf] calls: the text to draw for a message that is not
    empty or a contact that is overdue. *)
Definition banner_text {L : WideCharLibrary} (msg : list Z)
    (time_expired : bool) (seconds : float) : list Z :=
  let is_empty := match msg with [] => true | _ :: _ => false end in
  c_str (swprintf_128
    (if is_empty && time_expired then
       wide "[stm] No contact for " ++ format_seconds seconds
       ++ wide " seconds. [To quit: Ctrl-^ .]"
     else if negb is_empty && negb time_expired then
       wide "[stm] " ++ c_str msg
     else
       wide "[stm] " ++ c_str msg
       ++ wide " [To quit: Ctrl-^ .] (No contact for "
       ++ format_seconds seconds ++ wide " seconds.)")).

(** The local variables of the drawing loop and the elements pushed. *)
Record Drawing := {
  overlay_col : Z;
  dirty : bool;
  current : OverlayCell;
  drawn : list OverlayElement
}.

Definition with_col (c : OverlayCell) (column : Z) : OverlayCell :=
  {| cell_base := cell_base c; row := row c; col := column;
     replacement := replacement c; flag := flag c |}.

(** [current.replacement.contents.push_back( ch )] *)
Definition push_back_contents (c : OverlayCell) (ch : Z) : OverlayCell :=
  {| cell_base := cell_base c; row := row c; col := col c;
     replacement := with_contents (replacement c)
                      (contents (replacement c) ++ [ch]);
     flag := flag c |}.

(** [current.replacement.width = w] *)
Definition with_width (c : OverlayCell) (w : Z) : OverlayCell :=
  {| cell_base := cell_base c; row := row c; col := col c;
     replacement := {| contents := contents (replacement c); width := w;
                       renditions := renditions (replacement c) |};
     flag := flag c |}.

(** The template of the banner cells: column -1, bold, white on blue. *)
Definition template_cell (now : Z) (indeterminate : bool) : OverlayCell :=
  let built := OverlayCell_new now (u64 (now + 1100)) 0 (-1) 0 indeterminate in
  {| cell_base := cell_base built; row := row built; col := col built;
     replacement :=
       {| contents := contents (replacement built);
          width := width (replacement built);
          renditions :=
            {| bold := true;
               underlined := underlined (renditions (replacement built));
               foreground_color := 37;
               background_color := 44 |} |};
     flag := flag built |}.

(** One turn of the loop over the characters of the text. *)
Definition draw_char {L : WideCharLibrary} (b : Build) (template : OverlayCell)
    (ch : Z) (d : Drawing) : option Drawing :=
  let chwidth := if ch =? 0 then -1 else wcwidth ch in
  if (chwidth =? 1) || (chwidth =? 2) then
    let pushed := if dirty d then drawn d ++ [AnOverlayCell (current d)]
                  else drawn d in
    let cell := with_width (push_back_contents
                              (with_col template (overlay_col d)) ch) chwidth in
    Some {| overlay_col := overlay_col d + chwidth; dirty := true;
            current := cell; drawn := pushed |}
  else if chwidth =? 0 then
    let d1 :=
      match contents (replacement (current d)) with
      | [] =>
          {| overlay_col := overlay_col d + 1; dirty := true;
             current := with_width (push_back_contents
                                      (with_col template (overlay_col d)) 0xA0) 1;
             drawn := drawn d |}
      | _ :: _ => d
      end in
    Some {| overlay_col := overlay_col d1; dirty := dirty d1;
            current := push_back_contents (current d1) ch;
            drawn := drawn d1 |}
  else if chwidth =? -1 then Some d
  else c_assert b false ;;; Some d.

Fixpoint draw_text {L : WideCharLibrary} (b : Build) (template : OverlayCell)
    (text : list Z) (d : Drawing) : option Drawing :=
  match text with
  | [] => Some d
  | ch :: rest => d1 <- draw_char b template ch d ;; draw_text b template rest d1
  end.

(** [NotificationEngine::render_notification]. The constructor of the
    template cell leaves its [flag] unset; [indeterminate] is the value the
    cells inherit. *)
Definition render_notification {L : WideCharLibrary} (b : Build) (now : Z)
    (indeterminate : bool) (ne : NotificationEngine)
  : option NotificationEngine :=
  if render_notification_skips now ne then Some ne
  else
    let msg := if now >=? message_expiration ne then [] else message ne in
    let time_expired := u64 (now - last_word ne) >? 5000 in
    let rendered (l : list OverlayElement) :=
      {| notification_elements := l; needs_render := false;
         last_word := last_word ne; last_render := now;
         message := msg; message_expiration := message_expiration ne |} in
    match msg, time_expired with
    | [], false => Some (rendered [])
    | _, _ =>
        let seconds :=
          (double_of_uint64 (u64 (now - last_word ne)) / 1000)%float in
        let string_to_draw := banner_text msg time_expired seconds in
        let template := template_cell now indeterminate in
        d <- draw_text b template string_to_draw
               {| overlay_col := 0; dirty := false; current := template;
                  drawn := [] |} ;;
        Some (rendered (if dirty d then drawn d ++ [AnOverlayCell (current d)]
                        else drawn d))
    end.

Definition notification_bar : Cell :=
  {| contents := [0x20];
     width := width (Cell_new 0);
     renditions := {| bold := bold (renditions (Cell_new 0));
                      underlined := underlined (renditions (Cell_new 0));
                      foreground_color := 37;
                      background_color := 44 |} |}.

(** The loop [for ( int i = 0; i < width; i++ )] that draws the bar, with
    [todo] iterations left. *)
Fixpoint draw_bar (i : Z) (todo : nat) (fb : Framebuffer) : Framebuffer :=
  match todo with
  | O => fb
  | S n => draw_bar (i + 1) n (set_cell fb 0 i notification_bar)
  end.

(** [NotificationEngine::apply] *)
Definition NotificationEngine_apply {M : CursorMotion} (b : Build)
    (ne : NotificationEngine) (fb : Framebuffer) : option Framebuffer :=
  match notification_elements ne with
  | [] => Some fb
  | _ :: _ =>
      c_assert b (get_width (ds fb) >? 0) ;;;
      c_assert b (get_height (ds fb) >? 0) ;;;
      let fb1 := draw_bar 0 (Z.to_nat (get_width (ds fb))) fb in
      let fb2 :=
        if get_cursor_row (ds fb1) =? 0
        then set_ds fb1 (set_cursor_visible (ds fb1) false)
        else fb1 in
      OverlayEngine_apply b (notification_elements ne) fb2
  end.

(** ** The overlay manager *)

Record OverlayManager := {
  notifications : NotificationEngine;
  predictions : PredictionEngine
}.

(** [OverlayManager::apply]: the manager after the call and the framebuffer
    it leaves. *)
Definition OverlayManager_apply {M : CursorMotion} (b : Build) (now : Z)
    (m : OverlayManager) (fb : Framebuffer)
  : option (OverlayManager * Framebuffer) :=
  let p1 := calculate_score now fb (predictions m) in
  let p2 := cull now fb p1 in
  fb1 <- (if score p2 >? 3 then OverlayEngine_apply b (elements p2) fb
          else Some fb) ;;
  fb2 <- NotificationEngine_apply b (notifications m) fb1 ;;
  Some ({| notifications := notifications m; predictions := p2 |}, fb2).

(** One of the two loops of [wait_time]: the least expiration time below
    [next_expiry]. *)
Fixpoint next_expiry_loop (l : list OverlayElement) (next_expiry : Z) : Z :=
  match l with
  | [] => next_expiry
  | i :: rest =>
      next_expiry_loop rest
        (if expiration_time (element_base i) <? next_expiry
         then expiration_time (element_base i) else next_expiry)
  end.

(** [OverlayManager::wait_time] *)
Definition wait_time (now : Z) (m : OverlayManager) : Z :=
  let next_expiry := UINT64_MAX in
  let next_expiry :=
    next_expiry_loop (notification_elements (notifications m)) next_expiry in
  let next_expiry :=
    next_expiry_loop (elements (predictions m)) next_expiry in
  let ret := to_int (u64 (next_expiry - now)) in
  if ret <? 0 then INT_MAX else ret.

(** ** Definitions that follow the words of the specification *)

(** The round-trip estimator of section 4.5: its three variables. *)
Record Estimator := {
  est_hit : bool;
  est_SRTT : float;
  est_RTTVAR : float
}.

Definition estimator_of (pe : PredictionEngine) : Estimator :=
  {| est_hit := RTT_hit pe; est_SRTT := SRTT pe; est_RTTVAR := RTTVAR pe |}.

(** "If first measurement: SRTT = R; RTTVAR = R/2. Else: RTTVAR = (1 - b)
    RTTVAR + b |SRTT - R| with b = 1/4; SRTT = (1 - a) SRTT + a R with
    a = 1/8", with the constants 3/4, 1/4, 7/8 and 1/8 written out. *)
Definition spec_jacobson (e : Estimator) (R : float) : Estimator :=
  if est_hit e then
    {| est_hit := true;
       est_SRTT := (0.875 * est_SRTT e + 0.125 * R)%float;
       est_RTTVAR := (0.75 * est_RTTVAR e + 0.25 * abs (est_SRTT e - R))%float |}
  else
    {| est_hit := true; est_SRTT := R; est_RTTVAR := (R / 2)%float |}.

(** The sample an element feeds: [R = now - prediction_time]. *)
Definition sample_of (now : Z) (e : OverlayElement) : float :=
  double_of_uint64 (u64 (now - prediction_time (element_base e))).

Definition is_valid (now : Z) (fb : Framebuffer) (v : Validity)
    (e : OverlayElement) : bool :=
  Validity_eqb (get_validity now e fb) v.

(** "SRTT > 150 ms => enable flagging; SRTT < 100 ms => disable." *)
Definition spec_hysteresis (srtt : float) (flagging_before : bool) : bool :=
  if (150 <? srtt)%float then true
  else if (srtt <? 100)%float then false
  else flagging_before.

(** "round_up(1.25 SRTT + 8 RTTVAR), clamped to [20, 2000] ms": the clamp of
    an integer, and of a double that is rounded up first (an infinite value
    clamps to the upper end, and so does a NaN). *)
Definition spec_clamp (n : Z) : Z := Z.max 20 (Z.min 2000 n).

Definition spec_round_up_clamped (x : float) : Z :=
  match ceil_Z x with
  | Some n => spec_clamp n
  | None => 2000
  end.

(** A double that is no negative number: a zero, a positive number, plus
    infinity or a NaN. *)
Definition sf_not_negative (x : spec_float) : Prop :=
  match x with
  | S754_finite s _ _ => s = false
  | S754_infinity s => s = false
  | S754_zero _ => True
  | S754_nan => True
  end.

Definition not_negative (x : float) : Prop := sf_not_negative (Prim2SF x).

(** The estimator after a history of samples, each a [uint64_t] value [R]
    converted to [double] as [cull] does. *)
Definition feed_samples (samples : list Z) (pe : PredictionEngine)
  : PredictionEngine :=
  fold_left (fun p R => update_RTT (double_of_uint64 R) p) samples pe.

(** Decimal digits of a natural number, most significant first. *)
Fixpoint decimal_digits (fuel : nat) (n : Z) (acc : list Z) : list Z :=
  match fuel with
  | O => acc
  | S fuel' =>
      let acc' := (48 + n mod 10) :: acc in
      if n / 10 =? 0 then acc' else decimal_digits fuel' (n / 10) acc'
  end.

(** The integer nearest to a finite double, ties to the even one. *)
Definition round_half_even (x : float) : option Z :=
  match Prim2SF x with
  | S754_zero _ => Some 0
  | S754_finite s m e =>
      let magnitude :=
        if 0 <=? e then Z.pos m * 2 ^ e
        else
          let q := Z.pos m / 2 ^ (- e) in
          let twice_rest := 2 * (Z.pos m mod 2 ^ (- e)) in
          if twice_rest <? 2 ^ (- e) then q
          else if 2 ^ (- e) <? twice_rest then q + 1
          else if Z.even q then q else q + 1 in
      Some (if s then - magnitude else magnitude)
  | S754_infinity _ => None
  | S754_nan => None
  end.

(** A library for the examples: printable ASCII has width one, the
    combining acute accent U+0301 width zero, a double prints as its nearest
    integer, and [swprintf] keeps the first 127 characters. *)
Definition example_library : WideCharLibrary := {|
  wcwidth ch :=
    if (32 <=? ch) && (ch <=? 126) then 1
    else if ch =? 0x301 then 0 else -1;
  format_seconds x :=
    match round_half_even x with
    | Some n =>
        (if n <? 0 then [45] else [])
        ++ decimal_digits (S (Z.to_nat (Z.log2 (Z.abs n)))) (Z.abs n) []
    | None => wide "inf"
    end;
  swprintf_128 text := firstn 127 text
|}.

(** A second emulator for the examples, which stores what it is given: an
    absolute motion stores the requested coordinate as it is, a relative one
    adds to the current coordinate. *)
Definition storing_motion : CursorMotion := {|
  move_row N relative d :=
    {| get_width := get_width d; get_height := get_height d;
       get_cursor_row := if relative then get_cursor_row d + N else N;
       get_cursor_col := get_cursor_col d;
       cursor_visible := cursor_visible d; origin_mode := origin_mode d |};
  move_col N relative implicit d :=
    {| get_width := get_width d; get_height := get_height d;
       get_cursor_row := get_cursor_row d;
       get_cursor_col := if relative then get_cursor_col d + N else N;
       cursor_visible := cursor_visible d; origin_mode := origin_mode d |}
|}.

Definition not_incorrect (now : Z) (fb : Framebuffer) (e : OverlayElement)
  : Prop :=
  get_validity now e fb <> IncorrectOrExpired.

Definition count_correct (now : Z) (fb : Framebuffer) (l : list OverlayElement)
  : Z :=
  Z.of_nat (length (filter (is_valid now fb Correct) l)).

(** The least expiration time of both engines, the all-ones value when
    there is no element. *)
Definition next_expiry_of (m : OverlayManager) : Z :=
  fold_left Z.min
    (map (fun e => expiration_time (element_base e))
       (notification_elements (notifications m) ++ elements (predictions m)))
    UINT64_MAX.

(** ** Concrete screens and elements used in the examples *)

Definition blank : Cell := Cell_new 0.

Definition letter (ch : Z) : Cell := with_contents blank [ch].

(** A screen of [h] rows and [w] columns of blank cells, cursor at the given
    position, visible, origin mode off. *)
Definition screen (h w : nat) (cursor_row cursor_col : Z) : Framebuffer :=
  {| ds := {| get_width := Z.of_nat w; get_height := Z.of_nat h;
              get_cursor_row := cursor_row; get_cursor_col := cursor_col;
              cursor_visible := true; origin_mode := false |};
     rows := repeat (repeat blank w) h |}.

(** An engine without predictions whose estimator starts at one second. *)
Definition fresh_engine : PredictionEngine :=
  {| elements := []; score := 0; SRTT := 1000%float; RTTVAR := 500%float;
     RTT_hit := false; flagging := false |}.

Definition quiet_notifications : NotificationEngine :=
  {| notification_elements := []; needs_render := false; last_word := 0;
     last_render := 0; message := []; message_expiration := 0 |}.

(** A move to the cursor position of a one-cell screen, expiring at 100. *)
Definition move_to_cursor : CursorMove := CursorMove_new 0 100 0 0.

(** The prediction of typing the character that the cell already shows. *)
Definition same_letter_prediction : ConditionalOverlayCell :=
  {| overlay_cell :=
       {| cell_base := OverlayElement_new 0 100; row := 0; col := 0;
          replacement := blank; flag := false |};
     original_contents := blank |}.

Definition letter_prediction (ch : Z) : ConditionalOverlayCell :=
  {| overlay_cell :=
       {| cell_base := OverlayElement_new 0 100; row := 0; col := 0;
          replacement := letter ch; flag := false |};
     original_contents := blank |}.

(** A move to row 5 of a screen of two rows. *)
Definition far_move : CursorMove := CursorMove_new 0 100 5 0.

Definition far_cell : OverlayCell :=
  {| cell_base := OverlayElement_new 0 100; row := 5; col := 0;
     replacement := letter 97; flag := true |}.

Definition with_cursor_row (fb : Framebuffer) (r : Z) : Framebuffer :=
  set_ds fb {| get_width := get_width (ds fb); get_height := get_height (ds fb);
               get_cursor_row := r; get_cursor_col := get_cursor_col (ds fb);
               cursor_visible := cursor_visible (ds fb);
               origin_mode := origin_mode (ds fb) |}.

(** A row of four cells that shows "a" in column 0, the cursor behind it. *)
Definition typed_a : Framebuffer :=
  set_cell (screen 1 4 0 1) 0 0 (letter 97).

(** The prediction, made at time 0, that a blank cell of row 0 will show the
    character [ch]. *)
Definition prediction_at (column ch expiration : Z) : OverlayElement :=
  AConditionalOverlayCell
    {| overlay_cell :=
         {| cell_base := OverlayElement_new 0 expiration; row := 0;
            col := column; replacement := letter ch; flag := false |};
       original_contents := blank |}.

Definition engine_with (l : list OverlayElement) (s : Z) : PredictionEngine :=
  {| elements := l; score := s; SRTT := 1000%float; RTTVAR := 500%float;
     RTT_hit := false; flagging := false |}.

(** One confirmed prediction made 300 ms ago and one that still waits. *)
Definition confirmed_and_waiting : PredictionEngine :=
  engine_with [prediction_at 0 97 1000; prediction_at 1 98 1000] 4.

(** A banner cell as [render_notification] builds them: bold, white on blue,
    expiring 1100 ms after the rendering. *)
Definition banner_cell (now column ch : Z) : OverlayCell :=
  {| cell_base := OverlayElement_new now (u64 (now + 1100));
     row := 0; col := column;
     replacement :=
       {| contents := [ch]; width := 1;
          renditions := {| bold := true; underlined := false;
                           foreground_color := 37; background_color := 44 |} |};
     flag := false |}.

(** A manager that shows a one-letter banner and holds no prediction. *)
Definition banner_manager : OverlayManager :=
  {| notifications :=
       {| notification_elements := [AnOverlayCell (banner_cell 0 0 33)];
          needs_render := false; last_word := 0; last_render := 0;
          message := [33]; message_expiration := 1100 |};
     predictions := fresh_engine |}.

Definition banner_screen : Framebuffer :=
  {| ds := {| get_width := 2; get_height := 1;
              get_cursor_row := 0; get_cursor_col := 0;
              cursor_visible := false; origin_mode := false |};
     rows := [[replacement (banner_cell 0 0 33); notification_bar]] |}.

(** Typing "a" and then a carriage return on a blank row of four cells. *)
Definition after_a : PredictionEngine :=
  engine_with
    [AConditionalCursorMove
       {| move_base := {| expiration_time := 2010; prediction_time := 10 |};
          new_row := 0; new_col := 1 |};
     AConditionalOverlayCell
       {| overlay_cell :=
            {| cell_base := {| expiration_time := 2010; prediction_time := 10 |};
               row := 0; col := 0; replacement := letter 97; flag := false |};
          original_contents := blank |}] 0.

(** An engine that last heard from the server at 1000 and last rendered its
    banner at 4900. *)
Definition heard_at_1000 : NotificationEngine :=
  {| notification_elements := []; needs_render := false; last_word := 1000;
     last_render := 4900; message := []; message_expiration := 0 |}.

Definition idle_manager : OverlayManager :=
  {| notifications := quiet_notifications; predictions := fresh_engine |}.

(** A manager with one prediction that expires at 100. *)
Definition waiting_manager : OverlayManager :=
  {| notifications := quiet_notifications;
     predictions := engine_with [prediction_at 1 98 100] 0 |}.

(** ** Definitions used by the frame, shape and layout properties *)

(** The position is stored in the grid of the framebuffer. *)
Definition in_grid (fb : Framebuffer) (r c : Z) : Prop :=
  0 <= r /\ 0 <= c
  /\ (Z.to_nat c < length (nth (Z.to_nat r) (rows fb) []))%nat.

(** The cell an element writes, when it is of one of the two cell classes. *)
Definition cell_of (e : OverlayElement) : option OverlayCell :=
  match e with
  | AnOverlayCell c => Some c
  | AConditionalOverlayCell c => Some (overlay_cell c)
  | ACursorMove _ => None
  | AConditionalCursorMove _ => None
  end.

(** Some cell element of the list is placed at the position. *)
Definition targeted (l : list OverlayElement) (r c : Z) : Prop :=
  exists e oc, In e l /\ cell_of e = Some oc /\ row oc = r /\ col oc = c.

(** What [OverlayCell::apply] leaves in a cell that shows [current]. *)
Definition shown_after (oc : OverlayCell) (current : Cell) : Cell :=
  if Cell_eqb current (replacement oc) then current
  else if flag oc then underline (replacement oc)
  else replacement oc.

Definition is_conditional_cell (e : OverlayElement) : Prop :=
  match e with
  | AConditionalOverlayCell _ => True
  | _ => False
  end.

(** The shape [new_user_byte] relies on: no element, or one conditional
    cursor move at the front followed by conditional cells only. *)
Definition prediction_shape (l : list OverlayElement) : Prop :=
  match l with
  | [] => True
  | AConditionalCursorMove _ :: rest => Forall is_conditional_cell rest
  | _ :: _ => False
  end.

(** A banner cell placed at column [start] of row 0 by a rendering at time
    [now]: one or two columns wide, with some contents, bold white on blue,
    expiring 1100 ms after the rendering. *)
Definition placed (now : Z) (indeterminate : bool) (start : Z)
    (c : OverlayCell) : Prop :=
  row c = 0 /\ col c = start
  /\ (width (replacement c) = 1 \/ width (replacement c) = 2)
  /\ contents (replacement c) <> []
  /\ cell_base c = {| expiration_time := u64 (now + 1100);
                      prediction_time := now |}
  /\ renditions (replacement c)
     = {| bold := true; underlined := false;
          foreground_color := 37; background_color := 44 |}
  /\ flag c = indeterminate.

(** The elements are banner cells that tile row 0 from column [start] to
    column [stop]: each begins where the one before it ends. *)
Fixpoint laid_out (now : Z) (indeterminate : bool) (start : Z)
    (l : list OverlayElement) (stop : Z) : Prop :=
  match l with
  | [] => start = stop
  | AnOverlayCell c :: rest =>
      placed now indeterminate start c
      /\ laid_out now indeterminate (start + width (replacement c)) rest stop
  | _ :: _ => False
  end.

(** The state of the drawing loop between two characters: nothing drawn
    yet, or the cells pushed and the current one tile the row up to
    [overlay_col]. *)
Definition drawing_ok (now : Z) (indeterminate : bool) (d : Drawing) : Prop :=
  (dirty d = false /\ drawn d = [] /\ overlay_col d = 0
   /\ current d = template_cell now indeterminate)
  \/ (dirty d = true
      /\ laid_out now indeterminate 0
           (drawn d ++ [AnOverlayCell (current d)]) (overlay_col d)).

(** Typing bytes one after the other against the same framebuffer, each
    with the clock reading of its keystroke. *)
Fixpoint type_bytes (keys : list (Z * Z)) (fb : Framebuffer)
    (pe : PredictionEngine) : option PredictionEngine :=
  match keys with
  | [] => Some pe
  | (now, the_byte) :: rest =>
      pe1 <- new_user_byte now the_byte fb pe ;; type_bytes rest fb pe1
  end.

(** Row, column and predicted contents of a conditional cell. *)
Definition prediction_summary (c : ConditionalOverlayCell)
  : Z * Z * list Z :=
  (row (overlay_cell c), col (overlay_cell c),
   contents (replacement (overlay_cell c))).

(** The cells expected for the bytes typed from column [c] of row [r]. *)
Fixpoint typed_from (r c : Z) (keys : list (Z * Z)) : list (Z * Z * list Z) :=
  match keys with
  | [] => []
  | (_, the_byte) :: rest => (r, c, [the_byte]) :: typed_from r (c + 1) rest
  end.

(** A manager with a banner in row 0 and, at score 4, the prediction of a
    letter in column 1 of that row. *)
Definition busy_manager : OverlayManager :=
  {| notifications := notifications banner_manager;
     predictions := engine_with [prediction_at 1 98 1000] 4 |}.

(** A flagged cell that predicts "a" in column 1 of row 0. *)
Definition flagged_a : OverlayCell :=
  {| cell_base := OverlayElement_new 0 100; row := 0; col := 1;
     replacement := letter 97; flag := true |}.

(** An engine asked at time 50 to show "hi", with the server heard at 0. *)
Definition greeting : NotificationEngine :=
  set_notification_string 50 [104; 105] (NotificationEngine_new 0).

(** The cursor of the framebuffer placed at row [r], column [c]. *)
Definition with_cursor (fb : Framebuffer) (r c : Z) : Framebuffer :=
  set_ds fb {| get_width := get_width (ds fb); get_height := get_height (ds fb);
               get_cursor_row := r; get_cursor_col := c;
               cursor_visible := cursor_visible (ds fb);
               origin_mode := origin_mode (ds fb) |}.

(** A row of six cells that shows "a" in column 0, the cursor on it. *)
Definition line_a : Framebuffer := set_cell (screen 1 6 0 0) 0 0 (letter 97).

(** The row after the server has echoed "a" and "b". *)
Definition line_ab : Framebuffer :=
  with_cursor (set_cell line_a 0 1 (letter 98)) 0 2.

(** The row after the server has echoed "c" as well. *)
Definition line_abc : Framebuffer :=
  with_cursor (set_cell line_ab 0 2 (letter 99)) 0 3.

(** A session on a fresh engine: "a" typed at 10 over the "a" that the row
    shows, "b" typed at 11, the overlays applied at 12 to the row with both
    echoed, "c" typed at 13, the overlays applied at 40 to the row with "c"
    echoed. The result is the prediction engine that the next keystroke
    finds. *)
Definition typing_session : option PredictionEngine :=
  p1 <- new_user_byte 10 97 line_a fresh_engine ;;
  p2 <- new_user_byte 11 98 line_a p1 ;;
  r1 <- @OverlayManager_apply snapping_motion DebugBuild 12
          {| notifications := quiet_notifications; predictions := p2 |}
          line_ab ;;
  p3 <- new_user_byte 13 99 line_ab (predictions (fst r1)) ;;
  r2 <- @OverlayManager_apply snapping_motion DebugBuild 40
          {| notifications := quiet_notifications; predictions := p3 |}
          line_abc ;;
  Some (predictions (fst r2)).

(** ** Basic facts *)

Lemma contents_eqb_eq : forall a b, contents_eqb a b = true <-> a = b.
Proof.
  induction a as [|x a IH]; destruct b as [|y b]; simpl; split;
    try discriminate; try reflexivity.
  - intros H. apply andb_true_iff in H. destruct H as [Hx Hr].
    apply Z.eqb_eq in Hx. apply IH in Hr. now subst.
  - intros H. inversion H; subst. rewrite Z.eqb_refl. simpl. now apply IH.
Qed.

Lemma Renditions_eqb_eq : forall a b, Renditions_eqb a b = true <-> a = b.
Proof.
  intros [b1 u1 f1 g1] [b2 u2 f2 g2]. unfold Renditions_eqb. simpl. split.
  - intros H. repeat (apply andb_true_iff in H; destruct H as [H ?]).
    apply Bool.eqb_prop in H. apply Bool.eqb_prop in H2.
    apply Z.eqb_eq in H0. apply Z.eqb_eq in H1. now subst.
  - intros H. inversion H; subst.
    now rewrite !Bool.eqb_reflx, !Z.eqb_refl.
Qed.

Lemma Cell_eqb_eq : forall a b, Cell_eqb a b = true <-> a = b.
Proof.
  intros [c1 w1 r1] [c2 w2 r2]. unfold Cell_eqb. simpl. split.
  - intros H. repeat (apply andb_true_iff in H; destruct H as [H ?]).
    apply contents_eqb_eq in H. apply Z.eqb_eq in H1.
    apply Renditions_eqb_eq in H0. now subst.
  - intros H. inversion H; subst.
    rewrite Z.eqb_refl.
    rewrite (proj2 (contents_eqb_eq c2 c2) eq_refl).
    now rewrite (proj2 (Renditions_eqb_eq r2 r2) eq_refl).
Qed.

Lemma Cell_eqb_neq : forall a b, Cell_eqb a b = false <-> a <> b.
Proof.
  intros a b. split.
  - intros H E. apply Cell_eqb_eq in E. congruence.
  - intros H. destruct (Cell_eqb a b) eqn:E; [|reflexivity].
    apply Cell_eqb_eq in E. contradiction.
Qed.

Lemma Validity_eqb_eq : forall a b, Validity_eqb a b = true <-> a = b.
Proof. intros [] []; simpl; split; congruence. Qed.

Lemma off_screen_test : forall r c fb,
  (r >=? get_height (ds fb)) || (c >=? get_width (ds fb)) = false <->
  r < get_height (ds fb) /\ c < get_width (ds fb).
Proof.
  intros r c fb. rewrite orb_false_iff.
  rewrite !Z.geb_leb, !Z.leb_gt. tauto.
Qed.

(** The conversion of 64-bit integers rounds to the nearest double, ties to
    the even one. *)
Example double_of_uint64_rounds :
  double_of_uint64 300 = 300%float
  /\ double_of_uint64 (2 ^ 53 + 1) = 9007199254740992%float
  /\ double_of_uint64 (2 ^ 53 + 3) = 9007199254740996%float
  /\ double_of_uint64 (2 ^ 64 - 1) = 18446744073709551616%float.
Proof. repeat split; vm_compute; reflexivity. Qed.

(** The banner for the message "hi" preceded by a combining accent: one cell
    per character from column 0 on, the accent joined to the space before
    it. *)
Example banner_of_a_message :
  option_map
    (fun ne =>
       map (fun e =>
              match e with
              | AnOverlayCell c => (col c, contents (replacement c))
              | _ => (-1, [])
              end)
         (notification_elements ne))
    (@render_notification example_library DebugBuild 100 false
       (set_notification_string 50 [0x301; 104; 105] (NotificationEngine_new 0)))
  = Some [(0, [91]); (1, [115]); (2, [116]); (3, [109]); (4, [93]);
          (5, [32; 0x301]); (6, [104]); (7, [105])].
Proof. vm_compute. reflexivity. Qed.

(** ** Validity of the conditional elements *)

Section Validity_of_elements.

Variable now : Z.
Variable fb : Framebuffer.

Lemma off_screen_move_invalid : forall m,
  (new_row m >=? get_height (ds fb)) || (new_col m >=? get_width (ds fb)) = true ->
  ConditionalCursorMove_get_validity now m fb = IncorrectOrExpired.
Proof.
  intros m H. unfold ConditionalCursorMove_get_validity. now rewrite H.
Qed.

Lemma off_screen_cell_invalid : forall c,
  (row (overlay_cell c) >=? get_height (ds fb))
  || (col (overlay_cell c) >=? get_width (ds fb)) = true ->
  ConditionalOverlayCell_get_validity now c fb = IncorrectOrExpired.
Proof.
  intros c H. unfold ConditionalOverlayCell_get_validity. now rewrite H.
Qed.

(** C2, as the code has it: for a conditional cursor move whose target is
    below the height and width of the framebuffer, [get_validity] is
    [Pending] whenever the clock is before the expiration time, also when the
    cursor already is at the target; from the expiration time on it is
    [Correct] when the cursor is at the target and [IncorrectOrExpired] when
    it is not. *)
Theorem cursor_move_validity : forall m,
  new_row m < get_height (ds fb) ->
  new_col m < get_width (ds fb) ->
  (now < expiration_time (move_base m) ->
   ConditionalCursorMove_get_validity now m fb = Pending)
  /\ (expiration_time (move_base m) <= now ->
      get_cursor_row (ds fb) = new_row m /\ get_cursor_col (ds fb) = new_col m ->
      ConditionalCursorMove_get_validity now m fb = Correct)
  /\ (expiration_time (move_base m) <= now ->
      ~ (get_cursor_row (ds fb) = new_row m /\ get_cursor_col (ds fb) = new_col m) ->
      ConditionalCursorMove_get_validity now m fb = IncorrectOrExpired).
Proof.
  intros m Hr Hc. unfold ConditionalCursorMove_get_validity.
  rewrite (proj2 (off_screen_test _ _ fb) (conj Hr Hc)).
  repeat split.
  - intros Hlt. apply Z.ltb_lt in Hlt. now rewrite Hlt.
  - intros Hge [Er Ec]. apply Z.ltb_ge in Hge. rewrite Hge.
    now rewrite Er, Ec, !Z.eqb_refl.
  - intros Hge Hne. apply Z.ltb_ge in Hge. rewrite Hge.
    destruct (get_cursor_col (ds fb) =? new_col m) eqn:Ec; [|reflexivity].
    destruct (get_cursor_row (ds fb) =? new_row m) eqn:Er; [|reflexivity].
    apply Z.eqb_eq in Ec, Er. exfalso. apply Hne. now split.
Qed.

(** C3, as the code has it: for a conditional cell whose position is below
    the height and width of the framebuffer, [get_validity] is [Pending] when
    the clock is before the expiration time and the cell on the screen equals
    [original_contents] (also when it equals [replacement] as well); in every
    other case it is [Correct] when the cell on the screen equals
    [replacement] and [IncorrectOrExpired] when it does not. *)
Theorem overlay_cell_validity : forall c,
  row (overlay_cell c) < get_height (ds fb) ->
  col (overlay_cell c) < get_width (ds fb) ->
  let current := get_cell fb (row (overlay_cell c)) (col (overlay_cell c)) in
  let waiting :=
    now < expiration_time (cell_base (overlay_cell c))
    /\ current = original_contents c in
  (waiting -> ConditionalOverlayCell_get_validity now c fb = Pending)
  /\ (~ waiting -> current = replacement (overlay_cell c) ->
      ConditionalOverlayCell_get_validity now c fb = Correct)
  /\ (~ waiting -> current <> replacement (overlay_cell c) ->
      ConditionalOverlayCell_get_validity now c fb = IncorrectOrExpired).
Proof.
  intros c Hr Hc current waiting.
  unfold ConditionalOverlayCell_get_validity.
  rewrite (proj2 (off_screen_test _ _ fb) (conj Hr Hc)).
  fold current.
  assert (Hw : (now <? expiration_time (cell_base (overlay_cell c)))
               && Cell_eqb current (original_contents c) = true <-> waiting).
  { unfold waiting. rewrite andb_true_iff, Z.ltb_lt, Cell_eqb_eq. tauto. }
  repeat split.
  - intros W. apply Hw in W. now rewrite W.
  - intros NW E.
    destruct ((now <? _) && _) eqn:T; [exfalso; apply NW, Hw; reflexivity|].
    now rewrite (proj2 (Cell_eqb_eq _ _) E).
  - intros NW NE.
    destruct ((now <? _) && _) eqn:T; [exfalso; apply NW, Hw; reflexivity|].
    now rewrite (proj2 (Cell_eqb_neq _ _) NE).
Qed.

End Validity_of_elements.

(** C2 fails as stated: with the cursor already at the target and the clock
    before the expiration time the move is [Pending], not [Correct]. *)
Lemma cursor_move_at_target_is_pending :
  get_cursor_row (ds (screen 1 1 0 0)) = new_row move_to_cursor
  /\ get_cursor_col (ds (screen 1 1 0 0)) = new_col move_to_cursor
  /\ ConditionalCursorMove_get_validity 5 move_to_cursor (screen 1 1 0 0) = Pending
  /\ ConditionalCursorMove_get_validity 5 move_to_cursor (screen 1 1 0 0) <> Correct.
Proof. repeat split; try reflexivity. discriminate. Qed.

Lemma cursor_move_validity_witness :
  ConditionalCursorMove_get_validity 5 move_to_cursor (screen 1 1 0 0) = Pending
  /\ ConditionalCursorMove_get_validity 100 move_to_cursor (screen 1 1 0 0) = Correct
  /\ ConditionalCursorMove_get_validity 100 move_to_cursor (screen 2 2 1 0)
     = IncorrectOrExpired.
Proof.
  split; [|split].
  - apply (cursor_move_validity 5 (screen 1 1 0 0) move_to_cursor);
      simpl; lia.
  - apply (cursor_move_validity 100 (screen 1 1 0 0) move_to_cursor);
      simpl; lia.
  - apply (cursor_move_validity 100 (screen 2 2 1 0) move_to_cursor);
      simpl; lia.
Defined.

(** C3 fails as stated: the cell on the screen equals [replacement], and the
    validity is [Pending], not [Correct], because it equals
    [original_contents] too and the clock is before the expiration time. *)
Lemma overlay_cell_equal_replacement_is_pending :
  get_cell (screen 1 1 0 0) 0 0 = replacement (overlay_cell same_letter_prediction)
  /\ ConditionalOverlayCell_get_validity 5 same_letter_prediction (screen 1 1 0 0)
     = Pending
  /\ ConditionalOverlayCell_get_validity 5 same_letter_prediction (screen 1 1 0 0)
     <> Correct.
Proof. repeat split; try reflexivity. discriminate. Qed.

Lemma overlay_cell_validity_witness :
  ConditionalOverlayCell_get_validity 5 (letter_prediction 97) (screen 1 1 0 0)
  = Pending
  /\ ConditionalOverlayCell_get_validity 100 same_letter_prediction (screen 1 1 0 0)
     = Correct
  /\ ConditionalOverlayCell_get_validity 100 (letter_prediction 97) (screen 1 1 0 0)
     = IncorrectOrExpired.
Proof.
  split; [|split].
  - apply (overlay_cell_validity 5 (screen 1 1 0 0) (letter_prediction 97));
      simpl; first [lia | split; [lia | reflexivity]].
  - apply (overlay_cell_validity 100 (screen 1 1 0 0) same_letter_prediction);
      simpl; first [lia | reflexivity | intros [H _]; lia].
  - apply (overlay_cell_validity 100 (screen 1 1 0 0) (letter_prediction 97));
      simpl; first [lia | discriminate | intros [H _]; lia].
Defined.

(** ** Applying elements whose target is off the screen *)

Section Off_screen_targets.

Context {M : CursorMotion}.

Lemma OverlayCell_apply_off_screen : forall c fb,
  row c >= get_height (ds fb) \/ col c >= get_width (ds fb) ->
  OverlayCell_apply c fb = fb.
Proof.
  intros c fb Hout. unfold OverlayCell_apply.
  destruct ((row c >=? get_height (ds fb)) || (col c >=? get_width (ds fb)))
    eqn:T; [reflexivity|].
  apply off_screen_test in T. lia.
Qed.

Lemma CursorMove_apply_release : forall m fb,
  CursorMove_apply ReleaseBuild m fb
  = Some (set_ds fb (move_col (new_col m) false false
                       (move_row (new_row m) false (ds fb)))).
Proof. reflexivity. Qed.

Lemma CursorMove_apply_debug_off_screen : forall m fb,
  new_row m >= get_height (ds fb) \/ new_col m >= get_width (ds fb) ->
  CursorMove_apply DebugBuild m fb = None.
Proof.
  intros m fb Hout. unfold CursorMove_apply. simpl.
  destruct (new_row m <? get_height (ds fb)) eqn:Tr; simpl; [|reflexivity].
  destruct (new_col m <? get_width (ds fb)) eqn:Tc; simpl; [|reflexivity].
  apply Z.ltb_lt in Tr, Tc. lia.
Qed.

(** A conditional move that is [Pending] has its target on the screen, so
    the two bounds assertions hold for every move that outlives [cull]. *)
Lemma pending_move_on_screen : forall now m fb,
  ConditionalCursorMove_get_validity now m fb = Pending ->
  new_row m < get_height (ds fb) /\ new_col m < get_width (ds fb).
Proof.
  intros now m fb. unfold ConditionalCursorMove_get_validity.
  destruct ((new_row m >=? _) || _) eqn:T; [discriminate|].
  intros _. now apply off_screen_test.
Qed.

(** C4, as the code has it: [OverlayCell::apply] leaves the framebuffer as it
    is when the row is at least the height or the column at least the width.
    [CursorMove::apply] has no such guard: in a release build it hands the
    target to [move_row] and [move_col] whatever the target is, and in a
    debug build its assertions end the call when the target is off the
    screen. *)
Theorem off_screen_apply :
  (forall c fb,
     row c >= get_height (ds fb) \/ col c >= get_width (ds fb) ->
     OverlayCell_apply c fb = fb)
  /\ (forall m fb,
        CursorMove_apply ReleaseBuild m fb
        = Some (set_ds fb (move_col (new_col m) false false
                             (move_row (new_row m) false (ds fb)))))
  /\ (forall m fb,
        new_row m >= get_height (ds fb) \/ new_col m >= get_width (ds fb) ->
        CursorMove_apply DebugBuild m fb = None).
Proof.
  split; [|split].
  - exact OverlayCell_apply_off_screen.
  - exact CursorMove_apply_release.
  - exact CursorMove_apply_debug_off_screen.
Qed.

End Off_screen_targets.

(** C4 fails as stated for [CursorMove::apply]: in a release build a move to
    row 5 of a two-row screen changes the cursor row, to the last row with an
    emulator that keeps the cursor on the screen and to row 5 with one that
    stores the coordinate. *)
Lemma cursor_move_off_screen_moves_cursor :
  new_row far_move >= get_height (ds (screen 2 2 0 0))
  /\ @CursorMove_apply snapping_motion ReleaseBuild far_move (screen 2 2 0 0)
     = Some (with_cursor_row (screen 2 2 0 0) 1)
  /\ @CursorMove_apply storing_motion ReleaseBuild far_move (screen 2 2 0 0)
     = Some (with_cursor_row (screen 2 2 0 0) 5)
  /\ with_cursor_row (screen 2 2 0 0) 1 <> screen 2 2 0 0
  /\ with_cursor_row (screen 2 2 0 0) 5 <> screen 2 2 0 0.
Proof.
  split; [simpl; lia|].
  repeat split; try reflexivity; discriminate.
Qed.

Lemma off_screen_apply_witness :
  OverlayCell_apply far_cell (screen 2 2 0 0) = screen 2 2 0 0
  /\ @CursorMove_apply snapping_motion DebugBuild far_move (screen 2 2 0 0) = None.
Proof.
  split.
  - apply (proj1 (@off_screen_apply snapping_motion)). left. simpl. lia.
  - apply (proj2 (proj2 (@off_screen_apply snapping_motion))). left. simpl. lia.
Defined.

(** ** Scoring the predictions *)

Lemma set_score_twice : forall pe a b,
  set_score (set_score pe a) b = set_score pe b.
Proof. reflexivity. Qed.

Lemma set_score_same : forall pe, set_score pe (score pe) = pe.
Proof. now intros []. Qed.

Lemma calculate_score_loop_counts : forall now fb l pe,
  Forall (not_incorrect now fb) l ->
  calculate_score_loop now fb l pe
  = set_score pe (score pe + count_correct now fb l).
Proof.
  intros now fb l. unfold count_correct.
  induction l as [|i rest IH]; intros pe Hall; simpl.
  - now rewrite Z.add_0_r, set_score_same.
  - inversion Hall as [|? ? Hi Hrest]; subst. unfold not_incorrect in Hi.
    unfold is_valid at 1.
    destruct (get_validity now i fb) eqn:V; simpl.
    + now apply IH.
    + rewrite (IH _ Hrest), set_score_twice. simpl score. f_equal. lia.
    + contradiction.
Qed.

Lemma calculate_score_loop_stops : forall now fb before e after pe,
  Forall (not_incorrect now fb) before ->
  get_validity now e fb = IncorrectOrExpired ->
  calculate_score_loop now fb (before ++ e :: after) pe
  = clear (set_score pe 0).
Proof.
  intros now fb before e after.
  induction before as [|i rest IH]; intros pe Hall He; simpl.
  - now rewrite He.
  - inversion Hall as [|? ? Hi Hrest]; subst. unfold not_incorrect in Hi.
    destruct (get_validity now i fb) eqn:V.
    + now apply IH.
    + now rewrite (IH _ Hrest He), set_score_twice.
    + contradiction.
Qed.

(** C9: [calculate_score] walks the elements in order. When no element is
    [IncorrectOrExpired] the [Pending] ones leave the score alone and every
    [Correct] one adds one to it, and the elements stay. At the first
    [IncorrectOrExpired] element the score becomes 0 and the list is cleared,
    whatever was counted before it and whatever follows it. *)
Theorem calculate_score_walk : forall now fb pe,
  (Forall (not_incorrect now fb) (elements pe) ->
   calculate_score now fb pe
   = set_score pe (score pe + count_correct now fb (elements pe)))
  /\ (forall before e after,
        elements pe = before ++ e :: after ->
        Forall (not_incorrect now fb) before ->
        get_validity now e fb = IncorrectOrExpired ->
        calculate_score now fb pe = clear (set_score pe 0)).
Proof.
  intros now fb pe. unfold calculate_score. split.
  - apply calculate_score_loop_counts.
  - intros before e after Hsplit Hall He. rewrite Hsplit.
    now apply calculate_score_loop_stops.
Qed.

Lemma calculate_score_walk_witness :
  calculate_score 50 typed_a
    (engine_with [prediction_at 0 97 100; prediction_at 1 98 100] 2)
  = engine_with [prediction_at 0 97 100; prediction_at 1 98 100] 3
  /\ calculate_score 50 typed_a
       (engine_with [prediction_at 0 97 100; prediction_at 1 98 20;
                     prediction_at 2 99 100] 2)
     = engine_with [] 0.
Proof.
  split.
  - apply (proj1 (calculate_score_walk 50 typed_a
             (engine_with [prediction_at 0 97 100; prediction_at 1 98 100] 2))).
    repeat constructor; discriminate.
  - apply (proj2 (calculate_score_walk 50 typed_a
             (engine_with [prediction_at 0 97 100; prediction_at 1 98 20;
                           prediction_at 2 99 100] 2))
             [prediction_at 0 97 100] (prediction_at 1 98 20)
             [prediction_at 2 99 100]).
    + reflexivity.
    + repeat constructor; discriminate.
    + reflexivity.
Defined.

(** ** Culling and the round-trip estimator *)

Lemma above_150_not_below_100 : forall s : float,
  (150 <? s)%float = true -> (s <? 100)%float = false.
Proof.
  intros s. rewrite !ltb_spec.
  set (a := Prim2SF 150). vm_compute in a.
  set (b := Prim2SF 100). vm_compute in b. subst a b.
  unfold SFltb, SFcompare.
  destruct (Prim2SF s) as [[]|[]| |[] m e]; try discriminate; try reflexivity.
  destruct (Z.compare_spec (-45) e) as [E|L|G]; try discriminate;
    intros _; destruct (Z.compare_spec e (-46)) as [E'|L'|G']; try lia;
    reflexivity.
Qed.

Lemma update_RTT_is_jacobson : forall R pe,
  estimator_of (update_RTT R pe) = spec_jacobson (estimator_of pe) R.
Proof.
  intros R pe. unfold update_RTT, spec_jacobson, estimator_of. simpl.
  destruct (RTT_hit pe); reflexivity.
Qed.

Lemma update_RTT_frame : forall R pe,
  elements (update_RTT R pe) = elements pe
  /\ score (update_RTT R pe) = score pe
  /\ flagging (update_RTT R pe) = flagging pe.
Proof.
  intros R pe. unfold update_RTT. destruct (RTT_hit pe); simpl; auto.
Qed.

(** What the loop of [cull] computes: the elements kept, the estimator after
    the samples of the correct elements, and nothing else. *)
Lemma cull_loop_spec : forall now fb l pe,
  fst (cull_loop now fb l pe) = filter (is_valid now fb Pending) l
  /\ estimator_of (snd (cull_loop now fb l pe))
     = fold_left spec_jacobson
         (map (sample_of now) (filter (is_valid now fb Correct) l))
         (estimator_of pe)
  /\ elements (snd (cull_loop now fb l pe)) = elements pe
  /\ score (snd (cull_loop now fb l pe)) = score pe
  /\ flagging (snd (cull_loop now fb l pe)) = flagging pe.
Proof.
  intros now fb l. unfold is_valid.
  induction l as [|i rest IH]; intros pe.
  - simpl. auto.
  - simpl. destruct (get_validity now i fb) eqn:V; simpl.
    + specialize (IH pe). destruct (cull_loop now fb rest pe) as [kept pe2].
      simpl in *. destruct IH as (IH1 & IH2 & IH3 & IH4 & IH5).
      repeat split; auto. now f_equal.
    + specialize (IH (update_RTT (sample_of now i) pe)).
      fold (sample_of now i).
      destruct (update_RTT_frame (sample_of now i) pe) as (F1 & F2 & F3).
      rewrite update_RTT_is_jacobson, F1, F2, F3 in IH. exact IH.
    + apply IH.
Qed.

Lemma filter_all_valid : forall now fb v l,
  Forall (fun e => get_validity now e fb = v) (filter (is_valid now fb v) l).
Proof.
  intros now fb v l. apply Forall_forall. intros e Hin.
  apply filter_In in Hin. destruct Hin as [_ Hv].
  now apply Validity_eqb_eq in Hv.
Qed.

(** C7: [cull] feeds [R = now - prediction_time] of every [Correct] element,
    in list order, into the estimator (first sample: SRTT = R and RTTVAR =
    R/2; later samples: RTTVAR = 3/4 RTTVAR + 1/4 |SRTT - R|, then SRTT =
    7/8 SRTT + 1/8 R); it keeps exactly the [Pending] elements, so all that
    remain are [Pending]; afterwards flagging is true when SRTT > 150 and
    false when SRTT < 100, and as before in between; the score is not
    touched. *)
Theorem cull_estimates_and_removes : forall now fb pe,
  let pe' := cull now fb pe in
  let samples :=
    map (sample_of now) (filter (is_valid now fb Correct) (elements pe)) in
  let est := fold_left spec_jacobson samples (estimator_of pe) in
  elements pe' = filter (is_valid now fb Pending) (elements pe)
  /\ Forall (fun e => get_validity now e fb = Pending) (elements pe')
  /\ estimator_of pe' = est
  /\ ((150 <? est_SRTT est)%float = true -> flagging pe' = true)
  /\ ((est_SRTT est <? 100)%float = true -> flagging pe' = false)
  /\ ((150 <? est_SRTT est)%float = false ->
      (est_SRTT est <? 100)%float = false -> flagging pe' = flagging pe)
  /\ flagging pe' = spec_hysteresis (est_SRTT est) (flagging pe)
  /\ score pe' = score pe.
Proof.
  intros now fb pe pe' samples est.
  destruct (cull_loop_spec now fb (elements pe) pe)
    as (Hkept & Hest & _ & Hscore & Hflag).
  fold samples in Hest. fold est in Hest.
  assert (Hsrtt : SRTT (snd (cull_loop now fb (elements pe) pe)) = est_SRTT est)
    by (rewrite <- Hest; reflexivity).
  unfold pe', cull.
  destruct (cull_loop now fb (elements pe) pe) as [kept pe1]. simpl in *.
  subst kept.
  rewrite Hsrtt. unfold spec_hysteresis.
  destruct (150 <? est_SRTT est)%float eqn:Hi; simpl; rewrite Hsrtt.
  - rewrite (above_150_not_below_100 _ Hi). simpl.
    repeat split; auto; try discriminate. apply filter_all_valid.
  - destruct (est_SRTT est <? 100)%float eqn:Lo; simpl;
      repeat split; auto; try discriminate; apply filter_all_valid.
Qed.

Lemma cull_estimates_and_removes_witness :
  elements (cull 300 typed_a confirmed_and_waiting) = [prediction_at 1 98 1000]
  /\ estimator_of (cull 300 typed_a confirmed_and_waiting)
     = {| est_hit := true; est_SRTT := 300%float; est_RTTVAR := 150%float |}
  /\ flagging (cull 300 typed_a confirmed_and_waiting) = true.
Proof.
  pose proof (cull_estimates_and_removes 300 typed_a confirmed_and_waiting)
    as (Hel & _ & Hest & Hhi & _).
  split; [exact Hel | split; [exact Hest | apply Hhi; reflexivity]].
Defined.

Lemma cull_keeps_score : forall now fb pe, score (cull now fb pe) = score pe.
Proof.
  intros now fb pe. unfold cull.
  destruct (cull_loop_spec now fb (elements pe) pe) as (_ & _ & _ & Hs & _).
  destruct (cull_loop now fb (elements pe) pe) as [kept pe1]. simpl in *.
  destruct (150 <? SRTT pe1)%float; simpl;
    destruct (SRTT pe1 <? 100)%float; simpl; exact Hs.
Qed.

(** ** The gate of the overlay manager *)

Section Gate.

Context {M : CursorMotion}.

Lemma NotificationEngine_apply_nothing : forall b ne fb,
  notification_elements ne = [] -> NotificationEngine_apply b ne fb = Some fb.
Proof.
  intros b ne fb Hempty. unfold NotificationEngine_apply. now rewrite Hempty.
Qed.

(** C1, as the code has it: the score tested by [OverlayManager::apply] is the
    one [calculate_score] leaves ([cull] does not change it). When it is at
    most 3 no prediction is applied: the framebuffer after the call is what
    [NotificationEngine::apply] alone makes of the framebuffer passed in, and
    is that framebuffer itself when there is no notification element. The
    predictions are applied, before the notifications, exactly when the score
    is above 3. *)
Theorem apply_is_gated : forall b now m fb,
  let p := cull now fb (calculate_score now fb (predictions m)) in
  let m' := {| notifications := notifications m; predictions := p |} in
  score p = score (calculate_score now fb (predictions m))
  /\ (score p <= 3 ->
      OverlayManager_apply b now m fb
      = (fb2 <- NotificationEngine_apply b (notifications m) fb ;;
         Some (m', fb2)))
  /\ (score p <= 3 -> notification_elements (notifications m) = [] ->
      OverlayManager_apply b now m fb = Some (m', fb))
  /\ (3 < score p ->
      OverlayManager_apply b now m fb
      = (fb1 <- OverlayEngine_apply b (elements p) fb ;;
         fb2 <- NotificationEngine_apply b (notifications m) fb1 ;;
         Some (m', fb2))).
Proof.
  intros b now m fb p m'. split; [apply cull_keeps_score|].
  unfold OverlayManager_apply. fold p. fold m'.
  split; [|split].
  - intros Hle. apply Z.ltb_ge in Hle. now rewrite Z.gtb_ltb, Hle.
  - intros Hle Hempty. apply Z.ltb_ge in Hle. rewrite Z.gtb_ltb, Hle. simpl.
    now rewrite (NotificationEngine_apply_nothing b _ fb Hempty).
  - intros Hgt. apply Z.ltb_lt in Hgt. rewrite Z.gtb_ltb, Hgt. reflexivity.
Qed.

End Gate.

(** C1 fails as stated: with no prediction and the score at 0 the call
    still changes the framebuffer, because the banner is drawn whatever the
    score is. *)
Lemma banner_is_drawn_at_score_zero :
  score (cull 5 (screen 1 2 0 0)
           (calculate_score 5 (screen 1 2 0 0) (predictions banner_manager))) = 0
  /\ option_map snd
       (@OverlayManager_apply snapping_motion ReleaseBuild 5 banner_manager
          (screen 1 2 0 0))
     = Some banner_screen
  /\ banner_screen <> screen 1 2 0 0.
Proof. repeat split; try reflexivity. discriminate. Qed.

Lemma apply_is_gated_witness :
  option_map snd
    (@OverlayManager_apply snapping_motion DebugBuild 5
       {| notifications := quiet_notifications;
          predictions := engine_with [prediction_at 1 98 1000] 2 |} typed_a)
  = Some typed_a.
Proof.
  rewrite (proj1 (proj2 (proj2
             (@apply_is_gated snapping_motion DebugBuild 5
                {| notifications := quiet_notifications;
                   predictions := engine_with [prediction_at 1 98 1000] 2 |}
                typed_a)))).
  - reflexivity.
  - vm_compute. discriminate.
  - reflexivity.
Defined.

(** ** Predicting a typed byte *)

Lemma anchor_cursor_frame : forall now fb pe,
  prediction_len (anchor_cursor now fb pe) = prediction_len pe
  /\ flagging (anchor_cursor now fb pe) = flagging pe
  /\ score (anchor_cursor now fb pe) = score pe.
Proof.
  intros now fb pe. unfold anchor_cursor.
  destruct (elements pe); simpl; auto.
Qed.

Lemma is_printable_iff : forall b, is_printable b = true <-> 32 <= b <= 126.
Proof.
  intros b. unfold is_printable. rewrite andb_true_iff, !Z.leb_le. tauto.
Qed.

(** With a conditional cursor move at the front of the list, the cases of
    [new_user_byte]. The call first anchors a conditional cursor move at the cursor
    of the framebuffer, expiring at [now + prediction_len()], when the list is
    empty. With a conditional cursor move [ccm] at the front: when its target
    is off the screen nothing else happens; when the byte is printable ASCII
    and the target is at least two columns from the last column, a
    conditional cell is appended whose original contents is the cell at the
    target and whose replacement is that cell with the byte as its contents,
    flagged as the engine is, the target moves one column to the right and
    the move expires at [now + prediction_len()]; in every other case the
    list is cleared and the score set to 0. *)
Theorem new_user_byte_cases : forall now the_byte fb pe,
  let pe1 := anchor_cursor now fb pe in
  let expiration := u64 (now + prediction_len pe) in
  (elements pe = [] ->
   pe1 = set_elements pe
           [AConditionalCursorMove
              {| move_base := {| expiration_time := expiration;
                                 prediction_time := now |};
                 new_row := get_cursor_row (ds fb);
                 new_col := get_cursor_col (ds fb) |}])
  /\ (elements pe <> [] -> pe1 = pe)
  /\ (forall ccm rest,
        elements pe1 = AConditionalCursorMove ccm :: rest ->
        let off_screen :=
          new_row ccm >= get_height (ds fb) \/ new_col ccm >= get_width (ds fb) in
        let typable :=
          32 <= the_byte <= 126
          /\ 2 <= get_width (ds fb) - 1 - new_col ccm in
        let existing_cell := get_cell fb (new_row ccm) (new_col ccm) in
        (off_screen -> new_user_byte now the_byte fb pe = Some pe1)
        /\ (~ off_screen -> typable ->
            new_user_byte now the_byte fb pe
            = Some (set_elements pe1
                      (AConditionalCursorMove
                         {| move_base :=
                              {| expiration_time := expiration;
                                 prediction_time :=
                                   prediction_time (move_base ccm) |};
                            new_row := new_row ccm;
                            new_col := new_col ccm + 1 |}
                       :: rest
                       ++ [AConditionalOverlayCell
                             {| overlay_cell :=
                                  {| cell_base :=
                                       {| expiration_time := expiration;
                                          prediction_time := now |};
                                     row := new_row ccm;
                                     col := new_col ccm;
                                     replacement :=
                                       {| contents := [the_byte];
                                          width := width existing_cell;
                                          renditions :=
                                            renditions existing_cell |};
                                     flag := flagging pe |};
                                original_contents := existing_cell |}])))
        /\ (~ off_screen -> ~ typable ->
            new_user_byte now the_byte fb pe
            = Some (set_score (set_elements pe1 []) 0))).
Proof.
  intros now the_byte fb pe pe1 expiration.
  destruct (anchor_cursor_frame now fb pe) as (Hlen & Hflag & _).
  fold pe1 in Hlen, Hflag.
  split; [|split].
  - intros Hempty. unfold pe1, anchor_cursor. now rewrite Hempty.
  - intros Hfull. unfold pe1, anchor_cursor.
    destruct (elements pe); [contradiction | reflexivity].
  - intros ccm rest Hfront off_screen typable existing_cell.
    unfold new_user_byte. fold pe1. rewrite Hfront, Hlen, Hflag.
    fold expiration.
    assert (Hoff : (new_row ccm >=? get_height (ds fb))
                   || (new_col ccm >=? get_width (ds fb)) = true
                   <-> off_screen).
    { rewrite orb_true_iff, !Z.geb_leb, !Z.leb_le. unfold off_screen. lia. }
    assert (Htyp : is_printable the_byte
                   && (new_col ccm <? get_width (ds fb) - 2) = true
                   <-> typable).
    { rewrite andb_true_iff, is_printable_iff, Z.ltb_lt. unfold typable. lia. }
    split; [|split].
    + intros Hout. apply Hoff in Hout. now rewrite Hout.
    + intros Hin Ht. apply Htyp in Ht. rewrite Ht.
      rewrite (not_true_is_false _ (fun T => Hin (proj1 Hoff T))).
      reflexivity.
    + intros Hin Ht.
      rewrite (not_true_is_false _ (fun T => Hin (proj1 Hoff T))).
      rewrite (not_true_is_false _ (fun T => Ht (proj1 Htyp T))).
      reflexivity.
Qed.

Lemma new_user_byte_cases_witness :
  new_user_byte 10 97 (screen 1 4 0 0) (engine_with [] 0) = Some after_a
  /\ new_user_byte 20 13 (screen 1 4 0 0) after_a = Some (engine_with [] 0).
Proof.
  split.
  - apply (proj1 (proj2 (proj2 (proj2
             (new_user_byte_cases 10 97 (screen 1 4 0 0) (engine_with [] 0)))
             (CursorMove_new 10 2010 0 0) [] eq_refl))).
    + simpl. lia.
    + simpl. lia.
  - apply (proj2 (proj2 (proj2 (proj2
             (new_user_byte_cases 20 13 (screen 1 4 0 0) after_a))
             {| move_base := {| expiration_time := 2010; prediction_time := 10 |};
                new_row := 0; new_col := 1 |}
             _ eq_refl))).
    + simpl. lia.
    + simpl. lia.
Defined.

Lemma new_user_byte_needs_cursor_move : forall now the_byte fb pe e rest,
  elements pe = e :: rest ->
  (forall ccm, e <> AConditionalCursorMove ccm) ->
  new_user_byte now the_byte fb pe = None.
Proof.
  intros now the_byte fb pe e rest Hel Hfront.
  unfold new_user_byte, anchor_cursor. rewrite Hel. cbv zeta. rewrite Hel.
  destruct e as [c|c|m|ccm]; try reflexivity.
  now elim (Hfront ccm).
Qed.

(** C8: the cases of [new_user_byte] are those of a list that is empty or has
    a conditional cursor move at its front, which line 330 asserts; the
    engine does not keep its list so. In [typing_session], "a" is typed over
    an "a", then "b" and, after its echo has shortened the prediction
    length, "c"; at 40 the front move has expired with the cursor on its
    target and is culled as correct, like the cell of "c", while the cell of
    "a" still waits. The list is then that one cell, and for every byte,
    clock reading and framebuffer the next [new_user_byte] stops at the
    assertion instead of predicting, returning or clearing. *)
Theorem new_user_byte_after_cull_stops :
  exists pe coc,
    typing_session = Some pe
    /\ elements pe = [AConditionalOverlayCell coc]
    /\ row (overlay_cell coc) = 0 /\ col (overlay_cell coc) = 0
    /\ get_validity 40 (AConditionalOverlayCell coc) line_abc = Pending
    /\ forall now the_byte fb, new_user_byte now the_byte fb pe = None.
Proof.
  destruct typing_session as [pe|] eqn:E; [|vm_compute in E; discriminate E].
  vm_compute in E. injection E as <-.
  eexists. eexists. split; [reflexivity|]. split; [reflexivity|].
  split; [reflexivity|]. split; [reflexivity|]. split; [reflexivity|].
  intros now the_byte fb.
  eapply new_user_byte_needs_cursor_move; [reflexivity | discriminate].
Qed.

(** ** The notification latch *)

Section Latch.

Context {L : WideCharLibrary}.

Lemma draw_text_release : forall template text d,
  exists d', draw_text ReleaseBuild template text d = Some d'.
Proof.
  intros template text. induction text as [|ch rest IH]; intros d; simpl.
  - now exists d.
  - unfold draw_char.
    destruct ((_ =? 1) || (_ =? 2)); simpl; [apply IH|].
    destruct (_ =? 0); simpl; [apply IH|].
    destruct (_ =? -1); simpl; apply IH.
Qed.

(** A rendering that is not skipped completes in a release build, clears
    [needs_render] and records its time. *)
Lemma render_notification_renders : forall now indeterminate ne,
  render_notification_skips now ne = false ->
  exists ne',
    render_notification ReleaseBuild now indeterminate ne = Some ne'
    /\ needs_render ne' = false /\ last_render ne' = now.
Proof.
  intros now indeterminate ne Hgo. unfold render_notification. rewrite Hgo.
  set (msg := if now >=? message_expiration ne then [] else message ne).
  set (time_expired := u64 (now - last_word ne) >? 5000).
  assert (Hdraw : forall text d, exists ne',
            (d' <- draw_text ReleaseBuild (template_cell now indeterminate) text d ;;
             Some {| notification_elements :=
                       if dirty d' then drawn d' ++ [AnOverlayCell (current d')]
                       else drawn d';
                     needs_render := false; last_word := last_word ne;
                     last_render := now; message := msg;
                     message_expiration := message_expiration ne |}) = Some ne'
            /\ needs_render ne' = false /\ last_render ne' = now).
  { intros text d.
    destruct (draw_text_release (template_cell now indeterminate) text d)
      as [d' Hd'].
    rewrite Hd'. simpl. eexists. repeat split. }
  destruct msg as [|c msg']; [destruct time_expired|]; try apply Hdraw.
  eexists. repeat split.
Qed.

(** C5, as the code has it: after [server_ping(t)] the last word is [t]; the
    engine asks for a rendering when the jump [t - last_word], computed in
    64-bit unsigned arithmetic, is greater than 4000 ms, and then the next
    [render_notification] does not return early, however soon after the
    previous rendering it comes: it rebuilds the banner, clears
    [needs_render] and records its time. A jump of at most 4000 ms, 4000
    included, leaves [needs_render] as it was. Nothing else changes. *)
Theorem server_ping_latch : forall t ne,
  let ne' := server_ping t ne in
  last_word ne' = t
  /\ (4000 < u64 (t - last_word ne) ->
      needs_render ne' = true
      /\ forall now indeterminate,
           render_notification_skips now ne' = false
           /\ exists ne'',
                render_notification ReleaseBuild now indeterminate ne' = Some ne''
                /\ needs_render ne'' = false /\ last_render ne'' = now)
  /\ (u64 (t - last_word ne) <= 4000 -> needs_render ne' = needs_render ne)
  /\ notification_elements ne' = notification_elements ne
  /\ last_render ne' = last_render ne
  /\ message ne' = message ne
  /\ message_expiration ne' = message_expiration ne.
Proof.
  intros t ne ne'.
  assert (Hjump : 4000 < u64 (t - last_word ne) -> needs_render ne' = true).
  { intros H. unfold ne', server_ping. simpl.
    apply Z.gtb_lt in H. now rewrite H. }
  split; [reflexivity|]. split; [|split].
  - intros H. specialize (Hjump H). split; [exact Hjump|].
    intros now indeterminate.
    assert (Hgo : render_notification_skips now ne' = false).
    { unfold render_notification_skips. rewrite Hjump. apply andb_false_r. }
    split; [exact Hgo|]. now apply render_notification_renders.
  - intros Hle. unfold ne', server_ping. simpl.
    apply Z.ltb_ge in Hle. now rewrite Z.gtb_ltb, Hle.
  - repeat split.
Qed.

End Latch.

(** C5 fails as stated: a jump of exactly 4000 ms does not set
    [needs_render], and a rendering 100 ms after the previous one is
    skipped. *)
Lemma jump_of_4000_is_no_latch :
  5000 - last_word heard_at_1000 >= 4000
  /\ needs_render (server_ping 5000 heard_at_1000) = false
  /\ render_notification_skips 5000 (server_ping 5000 heard_at_1000) = true.
Proof. split; [simpl; lia | split; reflexivity]. Qed.

Lemma server_ping_latch_witness :
  needs_render (server_ping 5001 heard_at_1000) = true
  /\ render_notification_skips 5001 (server_ping 5001 heard_at_1000) = false
  /\ needs_render (server_ping 5000 heard_at_1000) = false.
Proof.
  pose proof (@server_ping_latch example_library 5001 heard_at_1000)
    as (_ & Hjump & _).
  pose proof (@server_ping_latch example_library 5000 heard_at_1000)
    as (_ & _ & Hsmall & _).
  split; [|split].
  - apply Hjump. vm_compute. reflexivity.
  - apply Hjump; [vm_compute; reflexivity | exact false].
  - apply Hsmall. vm_compute. discriminate.
Defined.

(** ** The wake-up time *)

Lemma next_expiry_loop_min : forall l n,
  next_expiry_loop l n
  = fold_left Z.min (map (fun e => expiration_time (element_base e)) l) n.
Proof.
  induction l as [|i rest IH]; intros n; simpl; [reflexivity|].
  rewrite IH. f_equal.
  destruct (expiration_time (element_base i) <? n) eqn:T.
  - apply Z.ltb_lt in T. lia.
  - apply Z.ltb_ge in T. lia.
Qed.

Lemma to_int_u64_small : forall d,
  - 2 ^ 31 <= d < 2 ^ 31 -> to_int (u64 d) = d.
Proof.
  intros d Hd. unfold to_int, u64.
  replace ((d mod 2 ^ 64) mod 2 ^ 32) with (d mod 2 ^ 32).
  2:{ symmetry. apply Z.mod_mod_divide. exists (2 ^ 32). reflexivity. }
  destruct (Z.neg_nonneg_cases d) as [Hneg|Hpos].
  - rewrite <- (Z.mod_add d 1 (2 ^ 32)) by lia.
    rewrite Z.mod_small by lia.
    destruct (d + 1 * 2 ^ 32 <? 2 ^ 31) eqn:T;
      [apply Z.ltb_lt in T; lia | lia].
  - rewrite Z.mod_small by lia.
    destruct (d <? 2 ^ 31) eqn:T; [reflexivity | apply Z.ltb_ge in T; lia].
Qed.

(** Within the range of [int] the call returns the time left until the next
    expiration, and [INT_MAX] when that time is negative. *)
Lemma wait_time_in_range : forall now m,
  - 2 ^ 31 <= next_expiry_of m - now < 2 ^ 31 ->
  wait_time now m
  = if next_expiry_of m - now <? 0 then INT_MAX else next_expiry_of m - now.
Proof.
  intros now m Hrange. unfold wait_time.
  rewrite !next_expiry_loop_min, <- fold_left_app, <- map_app.
  fold (next_expiry_of m). now rewrite to_int_u64_small.
Qed.

Lemma wait_time_in_range_witness :
  wait_time 40 waiting_manager = 60 /\ wait_time 140 waiting_manager = INT_MAX.
Proof.
  split.
  - rewrite (wait_time_in_range 40 waiting_manager); [reflexivity|].
    vm_compute. split; [discriminate | reflexivity].
  - rewrite (wait_time_in_range 140 waiting_manager); [reflexivity|].
    vm_compute. split; [discriminate | reflexivity].
Defined.

(** With no element at all the call returns [INT_MAX] only while bit 31 of
    the clock is clear. *)
Lemma wait_time_idle : forall now m,
  notification_elements (notifications m) = [] ->
  elements (predictions m) = [] ->
  0 <= now < 2 ^ 64 ->
  wait_time now m
  = if now mod 2 ^ 32 <? 2 ^ 31 then INT_MAX else 2 ^ 32 - 1 - now mod 2 ^ 32.
Proof.
  intros now m Hn Hp Hnow. unfold wait_time. rewrite Hn, Hp.
  cbn [next_expiry_loop]. unfold to_int, u64, UINT64_MAX.
  rewrite (Z.mod_small (2 ^ 64 - 1 - now)) by lia.
  assert (Hlow : (2 ^ 64 - 1 - now) mod 2 ^ 32 = 2 ^ 32 - 1 - now mod 2 ^ 32).
  { pose proof (Z.mod_pos_bound now (2 ^ 32) ltac:(lia)) as Hb.
    symmetry. apply Z.mod_unique with (q := 2 ^ 32 - 1 - now / 2 ^ 32); [lia|].
    pose proof (Z.div_mod now (2 ^ 32) ltac:(lia)). lia. }
  rewrite Hlow.
  pose proof (Z.mod_pos_bound now (2 ^ 32) ltac:(lia)) as Hb.
  destruct (now mod 2 ^ 32 <? 2 ^ 31) eqn:T.
  - apply Z.ltb_lt in T.
    destruct (2 ^ 32 - 1 - now mod 2 ^ 32 <? 2 ^ 31) eqn:U;
      [apply Z.ltb_lt in U; lia|].
    destruct (2 ^ 32 - 1 - now mod 2 ^ 32 - 2 ^ 32 <? 0) eqn:V;
      [reflexivity | apply Z.ltb_ge in V; lia].
  - apply Z.ltb_ge in T.
    destruct (2 ^ 32 - 1 - now mod 2 ^ 32 <? 2 ^ 31) eqn:U;
      [|apply Z.ltb_ge in U; lia].
    destruct (2 ^ 32 - 1 - now mod 2 ^ 32 <? 0) eqn:V;
      [apply Z.ltb_lt in V; lia | reflexivity].
Qed.

Lemma wait_time_idle_witness :
  wait_time 1000 idle_manager = INT_MAX
  /\ wait_time 3000000000 idle_manager = 1294967295.
Proof.
  split.
  - rewrite (wait_time_idle 1000 idle_manager); try reflexivity. lia.
  - rewrite (wait_time_idle 3000000000 idle_manager); try reflexivity. lia.
Defined.

(** C6 at the input where the code departs from it: no element in either
    engine and a clock whose low 32 bits are all ones (49.7 days in
    milliseconds). The call returns 0, not [INT_MAX]. *)
Lemma wait_time_idle_returns_zero :
  notification_elements (notifications idle_manager) = []
  /\ elements (predictions idle_manager) = []
  /\ wait_time 4294967295 idle_manager = 0
  /\ wait_time 4294967295 idle_manager <> INT_MAX.
Proof.
  repeat split; try reflexivity.
  intros E. vm_compute in E. discriminate E.
Qed.

(** ** The length of a prediction *)

Lemma to_int_small : forall v, 0 <= v < 2 ^ 31 -> to_int v = v.
Proof.
  intros v Hv. unfold to_int. rewrite Z.mod_small by lia.
  destruct (v <? 2 ^ 31) eqn:T; [reflexivity | apply Z.ltb_ge in T; lia].
Qed.

(** The clamp of [prediction_len] puts every 64-bit value into [20, 2000]. *)
Lemma prediction_len_range : forall pe, 20 <= prediction_len pe <= 2000.
Proof.
  intros pe. unfold prediction_len.
  set (RTO := u64 _).
  destruct (RTO <? 20) eqn:Lo; [rewrite to_int_small; lia|].
  destruct (RTO >? 2000) eqn:Hi; [rewrite to_int_small; lia|].
  apply Z.ltb_ge in Lo. rewrite Z.gtb_ltb in Hi. apply Z.ltb_ge in Hi.
  rewrite to_int_small; lia.
Qed.

Lemma binary_round_aux_not_negative : forall m e l,
  sf_not_negative (binary_round_aux prec emax false m e l).
Proof.
  intros m e l. unfold binary_round_aux.
  destruct (shr_fexp prec emax m e l) as [mrs' e'].
  destruct (shr_fexp prec emax _ e' loc_Exact) as [mrs'' e''].
  destruct (shr_m mrs''); simpl; auto.
  destruct (e'' <=? _); simpl; auto.
Qed.

Lemma binary_normalize_not_negative : forall m e,
  0 <= m -> sf_not_negative (binary_normalize prec emax m e false).
Proof.
  intros [|m|m] e Hm; simpl; auto; [|lia].
  unfold binary_round.
  destruct (shl_align m e _) as [mz ez].
  apply binary_round_aux_not_negative.
Qed.

Lemma mul_not_negative : forall x y : float,
  not_negative x -> not_negative y -> not_negative (x * y).
Proof.
  unfold not_negative. intros x y. rewrite mul_spec. unfold SF64mul.
  destruct (Prim2SF x) as [sx|sx| |sx mx ex], (Prim2SF y) as [sy|sy| |sy my ey];
    simpl; intros Hx Hy; subst; auto.
  apply binary_round_aux_not_negative.
Qed.

Lemma add_not_negative : forall x y : float,
  not_negative x -> not_negative y -> not_negative (x + y).
Proof.
  unfold not_negative. intros x y. rewrite add_spec. unfold SF64add.
  destruct (Prim2SF x) as [sx|sx| |sx mx ex], (Prim2SF y) as [sy|sy| |sy my ey];
    simpl; intros Hx Hy; subst; auto.
  - destruct sx, sy; simpl; auto.
  - reflexivity.
  - apply binary_normalize_not_negative. simpl. lia.
Qed.

Lemma halve_not_negative : forall x : float,
  not_negative x -> not_negative (x / 2).
Proof.
  unfold not_negative. intros x. rewrite div_spec. unfold SF64div.
  set (two := Prim2SF 2). vm_compute in two. subst two.
  destruct (Prim2SF x) as [sx|sx| |sx mx ex]; simpl; intros Hx; subst; auto.
  destruct (SFdiv_core_binary prec emax _ _ _ _) as [[mz ez] lz].
  apply binary_round_aux_not_negative.
Qed.

Lemma abs_not_negative : forall x : float, not_negative (abs x).
Proof.
  unfold not_negative. intros x. rewrite abs_spec.
  destruct (Prim2SF x); simpl; auto.
Qed.

Lemma of_uint63_not_negative : forall n, not_negative (of_uint63 n).
Proof.
  unfold not_negative. intros n. rewrite of_uint63_spec.
  apply binary_normalize_not_negative.
  apply Uint63.to_Z_bounded.
Qed.

Create HintDb sign discriminated.

#[local] Hint Resolve mul_not_negative add_not_negative abs_not_negative
  halve_not_negative of_uint63_not_negative : sign.

(** A constant of the source that is not negative: by evaluation. *)
#[local] Hint Extern 2 (not_negative _) => reflexivity : sign.

Lemma double_of_uint64_not_negative : forall z,
  not_negative (double_of_uint64 z).
Proof. intros z. unfold double_of_uint64. auto with sign. Qed.

#[local] Hint Resolve double_of_uint64_not_negative : sign.

Lemma update_RTT_not_negative : forall R pe,
  not_negative R -> not_negative (SRTT pe) -> not_negative (RTTVAR pe) ->
  not_negative (SRTT (update_RTT R pe))
  /\ not_negative (RTTVAR (update_RTT R pe)).
Proof.
  intros R pe HR HS HV. unfold update_RTT.
  destruct (RTT_hit pe); simpl; split; auto with sign.
Qed.

Lemma feed_samples_not_negative : forall samples pe,
  not_negative (SRTT pe) -> not_negative (RTTVAR pe) ->
  not_negative (SRTT (feed_samples samples pe))
  /\ not_negative (RTTVAR (feed_samples samples pe)).
Proof.
  unfold feed_samples.
  induction samples as [|R rest IH]; intros pe HS HV; simpl; [now split|].
  destruct (update_RTT_not_negative (double_of_uint64 R) pe) as [HS' HV'];
    auto with sign.
Qed.

Lemma ceil_Z_not_negative : forall x n,
  not_negative x -> ceil_Z x = Some n -> 0 <= n.
Proof.
  unfold not_negative, ceil_Z. intros x n.
  destruct (Prim2SF x) as [s|s| |s m e]; simpl; intros Hx Hn;
    try discriminate; inversion Hn; subst; clear Hn; [lia|].
  destruct (0 <=? e) eqn:He.
  - apply Z.leb_le in He. apply Z.mul_nonneg_nonneg; [lia|].
    apply Z.pow_nonneg. lia.
  - apply Z.leb_gt in He.
    assert (Hp : 0 < 2 ^ (- e)) by (apply Z.pow_pos_nonneg; lia).
    assert (Hq : - Z.pos m / 2 ^ (- e) < 0)
      by (apply Z.div_lt_upper_bound; lia).
    lia.
Qed.

Lemma feed_samples_is_jacobson : forall samples pe,
  estimator_of (feed_samples samples pe)
  = fold_left spec_jacobson (map double_of_uint64 samples) (estimator_of pe).
Proof.
  unfold feed_samples.
  induction samples as [|R rest IH]; intros pe; simpl; [reflexivity|].
  now rewrite IH, update_RTT_is_jacobson.
Qed.

(** The histories of [feed_samples] are the ones that [cull] produces: the
    round-trip times of the correct elements, in list order. *)
Lemma cull_feeds_samples : forall now fb pe,
  estimator_of (cull now fb pe)
  = estimator_of
      (feed_samples
         (map (fun e => u64 (now - prediction_time (element_base e)))
            (filter (is_valid now fb Correct) (elements pe)))
         pe).
Proof.
  intros now fb pe. rewrite feed_samples_is_jacobson, map_map.
  destruct (cull_loop_spec now fb (elements pe) pe) as (_ & Hest & _).
  unfold cull.
  destruct (cull_loop now fb (elements pe) pe) as [kept pe1]. simpl in Hest.
  transitivity (estimator_of pe1); [|exact Hest].
  unfold estimator_of.
  destruct (150 <? _)%float; simpl; destruct (_ <? 100)%float; reflexivity.
Qed.

(** On a value that is not negative the function computes the rounded-up
    value clamped to [20, 2000]. *)
Lemma prediction_len_is_clamp : forall pe,
  not_negative (1.25 * SRTT pe + 8 * RTTVAR pe) ->
  prediction_len pe
  = spec_round_up_clamped (1.25 * SRTT pe + 8 * RTTVAR pe).
Proof.
  intros pe Hx. unfold prediction_len, lrint_ceil, spec_round_up_clamped.
  destruct (ceil_Z _) as [n|] eqn:C.
  - pose proof (ceil_Z_not_negative _ _ Hx C) as Hn.
    unfold spec_clamp, LONG_MIN.
    destruct (n <? 2 ^ 63) eqn:Big.
    + apply Z.ltb_lt in Big.
      replace (- 2 ^ 63 <=? n) with true by (symmetry; apply Z.leb_le; lia).
      simpl andb. cbv iota. unfold u64. rewrite Z.mod_small by lia.
      destruct (n <? 20) eqn:Lo.
      * apply Z.ltb_lt in Lo. rewrite to_int_small; lia.
      * apply Z.ltb_ge in Lo. rewrite Z.gtb_ltb.
        destruct (2000 <? n) eqn:Hi.
        -- apply Z.ltb_lt in Hi. rewrite to_int_small; lia.
        -- apply Z.ltb_ge in Hi. rewrite to_int_small; lia.
    + apply Z.ltb_ge in Big. rewrite andb_false_r.
      change (to_int (if u64 (- 2 ^ 63) <? 20 then 20
                      else if u64 (- 2 ^ 63) >? 2000 then 2000
                           else u64 (- 2 ^ 63)))
        with 2000.
      lia.
  - reflexivity.
Qed.

(** C10: for every history of samples, each a non-negative 64-bit value,
    fed into an estimator whose SRTT and RTTVAR are not negative,
    [prediction_len] is the value 1.25 SRTT + 8 RTTVAR rounded up and clamped
    to [20, 2000], and so lies within [20, 2000]. *)
Theorem prediction_len_bounds : forall pe samples,
  not_negative (SRTT pe) ->
  not_negative (RTTVAR pe) ->
  Forall (fun R => 0 <= R < 2 ^ 64) samples ->
  let pe' := feed_samples samples pe in
  prediction_len pe'
  = spec_round_up_clamped (1.25 * SRTT pe' + 8 * RTTVAR pe')
  /\ 20 <= prediction_len pe' <= 2000.
Proof.
  intros pe samples HS HV _ pe'. split; [|apply prediction_len_range].
  destruct (feed_samples_not_negative samples pe HS HV) as [HS' HV'].
  apply prediction_len_is_clamp. auto with sign.
Qed.

Lemma prediction_len_bounds_witness :
  prediction_len (feed_samples [10; 30] fresh_engine) = 86
  /\ 20 <= prediction_len (feed_samples [10; 30] fresh_engine) <= 2000.
Proof.
  destruct (prediction_len_bounds fresh_engine [10; 30]) as [Heq Hrange].
  - reflexivity.
  - reflexivity.
  - repeat constructor; lia.
  - split; [rewrite Heq; vm_compute; reflexivity | exact Hrange].
Defined.

(** ** Cells of the grid *)

Lemma list_update_length : forall (A : Type) (l : list A) n f,
  length (list_update l n f) = length l.
Proof.
  intros A l. induction l as [|x l IH]; intros [|n] f; simpl; auto.
Qed.

Lemma nth_list_update : forall (A : Type) (l : list A) n m f d,
  nth m (list_update l n f) d
  = if (Nat.eqb n m && Nat.ltb n (length l))%bool then f (nth m l d)
    else nth m l d.
Proof.
  intros A l. induction l as [|x l IH]; intros n m f d.
  - simpl. destruct m; now rewrite andb_false_r.
  - destruct n as [|n], m as [|m]; simpl; try reflexivity.
    rewrite IH. reflexivity.
Qed.

Lemma list_update_fixed : forall (A : Type) (l : list A) n f d,
  (n < length l -> f (nth n l d) = nth n l d)%nat ->
  list_update l n f = l.
Proof.
  intros A l. induction l as [|x l IH]; intros [|n] f d H; simpl in *; auto.
  - f_equal. apply H. lia.
  - f_equal. apply (IH n f d). intros Hn. apply H. lia.
Qed.

Lemma list_update_twice : forall (A : Type) (l : list A) n f g,
  list_update (list_update l n f) n g = list_update l n (fun x => g (f x)).
Proof.
  intros A l. induction l as [|x l IH]; intros [|n] f g; simpl; auto.
  now rewrite IH.
Qed.

Lemma list_update_ext : forall (A : Type) (l : list A) n f g,
  (forall x, f x = g x) -> list_update l n f = list_update l n g.
Proof.
  intros A l. induction l as [|x l IH]; intros [|n] f g H; simpl; auto.
  - now rewrite H.
  - now rewrite (IH n f g H).
Qed.

Lemma in_grid_dec : forall fb r c, in_grid fb r c \/ ~ in_grid fb r c.
Proof.
  intros fb r c. unfold in_grid.
  destruct (Z_le_dec 0 r); [|right; tauto].
  destruct (Z_le_dec 0 c); [|right; tauto].
  destruct (Nat.lt_ge_cases (Z.to_nat c)
              (length (nth (Z.to_nat r) (rows fb) []))); [left; tauto|].
  right. intros (_ & _ & H'). lia.
Qed.

Lemma ds_set_cell : forall fb r c v, ds (set_cell fb r c v) = ds fb.
Proof.
  intros fb r c v. unfold set_cell. now destruct ((r <? 0) || (c <? 0)).
Qed.

Lemma set_cell_outside : forall fb r c v,
  ~ in_grid fb r c -> set_cell fb r c v = fb.
Proof.
  intros [d rs] r c v Hout. unfold set_cell, in_grid in *. simpl in *.
  destruct ((r <? 0) || (c <? 0)) eqn:T; [reflexivity|].
  apply orb_false_iff in T. destruct T as [Tr Tc].
  apply Z.ltb_ge in Tr, Tc. f_equal.
  apply list_update_fixed with (d := []). intros _.
  apply list_update_fixed with (d := Cell_new 0). intros Hc.
  exfalso. apply Hout. auto.
Qed.

Lemma get_set_same : forall fb r c v,
  in_grid fb r c -> get_cell (set_cell fb r c v) r c = v.
Proof.
  intros fb r c v (Hr & Hc & Hlen). unfold get_cell, set_cell.
  replace ((r <? 0) || (c <? 0)) with false
    by (symmetry; apply orb_false_iff; split; apply Z.ltb_ge; lia).
  simpl rows. rewrite nth_list_update, Nat.eqb_refl.
  destruct (Nat.ltb_spec (Z.to_nat r) (length (rows fb))) as [Hin|Hout].
  - simpl andb. cbv iota. rewrite nth_list_update, Nat.eqb_refl.
    now rewrite (proj2 (Nat.ltb_lt _ _) Hlen).
  - rewrite nth_overflow in Hlen by exact Hout. simpl in Hlen. lia.
Qed.

Lemma get_set_other : forall fb r c v r' c',
  (r, c) <> (r', c') -> get_cell (set_cell fb r c v) r' c' = get_cell fb r' c'.
Proof.
  intros fb r c v r' c' Hne. unfold get_cell, set_cell.
  destruct ((r <? 0) || (c <? 0)) eqn:T; [reflexivity|].
  destruct ((r' <? 0) || (c' <? 0)) eqn:T'; [reflexivity|].
  apply orb_false_iff in T, T'. destruct T as [Tr Tc], T' as [Tr' Tc'].
  apply Z.ltb_ge in Tr, Tc, Tr', Tc'.
  simpl rows. rewrite nth_list_update.
  destruct (Nat.eqb_spec (Z.to_nat r) (Z.to_nat r')) as [Er|Nr];
    [|reflexivity].
  destruct (Z.to_nat r <? length (rows fb))%nat; [|reflexivity].
  simpl andb. cbv iota. rewrite nth_list_update.
  destruct (Nat.eqb_spec (Z.to_nat c) (Z.to_nat c')) as [Ec|Nc];
    [|reflexivity].
  exfalso. apply Hne. f_equal; lia.
Qed.

Lemma in_grid_set_cell : forall fb r c v r' c',
  in_grid (set_cell fb r c v) r' c' <-> in_grid fb r' c'.
Proof.
  intros fb r c v r' c'. unfold in_grid, set_cell.
  destruct ((r <? 0) || (c <? 0)); [tauto|]. simpl rows.
  rewrite nth_list_update.
  destruct ((Z.to_nat r =? Z.to_nat r')%nat
            && (Z.to_nat r <? length (rows fb))%nat)%bool; [|tauto].
  rewrite list_update_length. tauto.
Qed.

Lemma set_cell_twice : forall fb r c v w,
  set_cell (set_cell fb r c v) r c w = set_cell fb r c w.
Proof.
  intros fb r c v w. unfold set_cell.
  destruct ((r <? 0) || (c <? 0)); [reflexivity|]. simpl. f_equal.
  rewrite list_update_twice. apply list_update_ext. intros x.
  rewrite list_update_twice. reflexivity.
Qed.

(** ** What applying a cell does *)

Lemma OverlayCell_apply_ds : forall oc fb,
  ds (OverlayCell_apply oc fb) = ds fb.
Proof.
  intros oc fb. unfold OverlayCell_apply.
  destruct ((row oc >=? _) || _); [reflexivity|].
  destruct (negb _); [|reflexivity].
  destruct (flag oc); now rewrite ?ds_set_cell.
Qed.

Lemma OverlayCell_apply_other : forall oc fb r c,
  (row oc, col oc) <> (r, c) ->
  get_cell (OverlayCell_apply oc fb) r c = get_cell fb r c.
Proof.
  intros oc fb r c Hne. unfold OverlayCell_apply.
  destruct ((row oc >=? _) || _); [reflexivity|].
  destruct (negb _); [|reflexivity].
  destruct (flag oc); now rewrite ?get_set_other by exact Hne.
Qed.

(** On the screen and in the grid, [OverlayCell::apply] makes the cell show
    the replacement, underlined when the element is flagged and the cell had
    to be written; a cell that already equals the replacement is left alone.
    No other cell changes, and the draw state is not touched. *)
Theorem OverlayCell_apply_effect : forall oc fb,
  row oc < get_height (ds fb) ->
  col oc < get_width (ds fb) ->
  in_grid fb (row oc) (col oc) ->
  get_cell (OverlayCell_apply oc fb) (row oc) (col oc)
  = shown_after oc (get_cell fb (row oc) (col oc))
  /\ (forall r c, (row oc, col oc) <> (r, c) ->
        get_cell (OverlayCell_apply oc fb) r c = get_cell fb r c)
  /\ ds (OverlayCell_apply oc fb) = ds fb.
Proof.
  intros oc fb Hr Hc Hin.
  split; [|split; [intros r c; apply OverlayCell_apply_other
                  | apply OverlayCell_apply_ds]].
  unfold OverlayCell_apply, shown_after.
  rewrite (proj2 (off_screen_test _ _ fb) (conj Hr Hc)).
  destruct (Cell_eqb (get_cell fb (row oc) (col oc)) (replacement oc));
    simpl; [reflexivity|].
  destruct (flag oc).
  - rewrite get_set_same by (apply in_grid_set_cell; exact Hin).
    now rewrite get_set_same by exact Hin.
  - now apply get_set_same.
Qed.

Lemma OverlayCell_apply_written : forall oc fb,
  row oc < get_height (ds fb) ->
  col oc < get_width (ds fb) ->
  in_grid fb (row oc) (col oc) ->
  Cell_eqb (get_cell fb (row oc) (col oc)) (replacement oc) = false ->
  OverlayCell_apply oc fb
  = set_cell fb (row oc) (col oc)
      (if flag oc then underline (replacement oc) else replacement oc).
Proof.
  intros oc fb Hr Hc Hin Hne. unfold OverlayCell_apply.
  rewrite (proj2 (off_screen_test _ _ fb) (conj Hr Hc)), Hne. simpl.
  destruct (flag oc); [|reflexivity].
  now rewrite get_set_same, set_cell_twice by exact Hin.
Qed.

(** Applying a cell a second time changes nothing. *)
Theorem OverlayCell_apply_idempotent : forall oc fb,
  OverlayCell_apply oc (OverlayCell_apply oc fb) = OverlayCell_apply oc fb.
Proof.
  intros oc fb.
  destruct ((row oc >=? get_height (ds fb)) || (col oc >=? get_width (ds fb)))
    eqn:Off.
  { unfold OverlayCell_apply. now rewrite Off, Off. }
  destruct (Cell_eqb (get_cell fb (row oc) (col oc)) (replacement oc))
    eqn:Same.
  { unfold OverlayCell_apply. now rewrite Off, Same; simpl; rewrite Off, Same. }
  destruct (in_grid_dec fb (row oc) (col oc)) as [Hin|Hout].
  - apply off_screen_test in Off. destruct Off as [Hr Hc].
    rewrite (OverlayCell_apply_written oc fb Hr Hc Hin Same).
    set (shown := if flag oc then underline (replacement oc)
                  else replacement oc).
    assert (Hin' : in_grid (set_cell fb (row oc) (col oc) shown)
                     (row oc) (col oc)) by (apply in_grid_set_cell; exact Hin).
    destruct (Cell_eqb shown (replacement oc)) eqn:E.
    + unfold OverlayCell_apply. rewrite ds_set_cell.
      rewrite (proj2 (off_screen_test _ _ fb) (conj Hr Hc)).
      now rewrite get_set_same, E by exact Hin.
    + rewrite OverlayCell_apply_written;
        rewrite ?ds_set_cell, ?get_set_same; auto.
      apply set_cell_twice.
  - assert (Hfix : OverlayCell_apply oc fb = fb).
    { unfold OverlayCell_apply. rewrite Off, Same. simpl.
      rewrite (set_cell_outside fb _ _ _ Hout).
      destruct (flag oc); [|reflexivity].
      now rewrite (set_cell_outside fb _ _ _ Hout). }
    now rewrite Hfix, Hfix.
Qed.

(** ** What applying a list of elements leaves alone *)

Section Engine_frame.

Context {M : CursorMotion}.

Lemma CursorMove_apply_rows : forall b m fb fb',
  CursorMove_apply b m fb = Some fb' -> rows fb' = rows fb.
Proof.
  intros b m fb fb'. unfold CursorMove_apply.
  destruct (c_assert b _); simpl; [|discriminate].
  destruct (c_assert b _); simpl; [|discriminate].
  destruct (c_assert b _); simpl; [|discriminate].
  intros H. inversion H. reflexivity.
Qed.

Lemma get_cell_rows : forall fb fb' r c,
  rows fb' = rows fb -> get_cell fb' r c = get_cell fb r c.
Proof. intros fb fb' r c H. unfold get_cell. now rewrite H. Qed.

Lemma element_apply_other : forall b e fb fb' r c,
  element_apply b e fb = Some fb' ->
  (forall oc, cell_of e = Some oc -> (row oc, col oc) <> (r, c)) ->
  get_cell fb' r c = get_cell fb r c.
Proof.
  intros b [oc|coc|m|m] fb fb' r c Happ Hne; simpl in Happ.
  - inversion Happ. apply OverlayCell_apply_other. now apply Hne.
  - inversion Happ. apply OverlayCell_apply_other. now apply Hne.
  - apply get_cell_rows. eapply CursorMove_apply_rows. exact Happ.
  - apply get_cell_rows. eapply CursorMove_apply_rows. exact Happ.
Qed.

Lemma OverlayEngine_apply_other : forall b l fb fb' r c,
  OverlayEngine_apply b l fb = Some fb' ->
  ~ targeted l r c ->
  get_cell fb' r c = get_cell fb r c.
Proof.
  intros b l. induction l as [|e rest IH]; intros fb fb' r c Happ Hfree.
  - simpl in Happ. now inversion Happ.
  - simpl in Happ. destruct (element_apply b e fb) as [fb1|] eqn:E;
      simpl in Happ; [|discriminate].
    rewrite (IH fb1 fb' r c Happ).
    + apply (element_apply_other b e fb fb1 r c E).
      intros oc Hoc Heq. apply Hfree. exists e, oc.
      inversion Heq. repeat split; auto. now left.
    + intros (e' & oc & Hin & Hoc & Hr & Hc). apply Hfree.
      exists e', oc. repeat split; auto. now right.
Qed.

Lemma OverlayEngine_apply_release : forall l fb,
  exists fb', OverlayEngine_apply ReleaseBuild l fb = Some fb'.
Proof.
  induction l as [|e rest IH]; intros fb; simpl.
  - now exists fb.
  - destruct e; simpl; apply IH.
Qed.

(** [OverlayEngine::apply] always completes in a release build, and in
    either build it changes no cell but those at which one of its cell
    elements is placed, whatever the emulator does with the cursor. *)
Theorem OverlayEngine_apply_frame : forall l fb,
  (exists fb', OverlayEngine_apply ReleaseBuild l fb = Some fb')
  /\ forall b fb' r c,
       OverlayEngine_apply b l fb = Some fb' ->
       ~ targeted l r c ->
       get_cell fb' r c = get_cell fb r c.
Proof.
  intros l fb. split; [apply OverlayEngine_apply_release|].
  intros b fb' r c. apply OverlayEngine_apply_other.
Qed.

Lemma NotificationEngine_apply_release : forall ne fb,
  exists fb', NotificationEngine_apply ReleaseBuild ne fb = Some fb'.
Proof.
  intros ne fb. unfold NotificationEngine_apply.
  destruct (notification_elements ne) as [|e rest]; [now exists fb|].
  unfold c_assert, bind. apply OverlayEngine_apply_release.
Qed.

Lemma first_incorrect : forall now fb l,
  Forall (not_incorrect now fb) l
  \/ exists before e after,
       l = before ++ e :: after
       /\ Forall (not_incorrect now fb) before
       /\ get_validity now e fb = IncorrectOrExpired.
Proof.
  intros now fb l. induction l as [|x rest IH]; [left; constructor|].
  destruct (get_validity now x fb) eqn:V.
  - destruct IH as [Hall|(before & e & after & -> & Hb & He)].
    + left. constructor; [unfold not_incorrect; congruence | exact Hall].
    + right. exists (x :: before), e, after. repeat split; auto.
      constructor; [unfold not_incorrect; congruence | exact Hb].
  - destruct IH as [Hall|(before & e & after & -> & Hb & He)].
    + left. constructor; [unfold not_incorrect; congruence | exact Hall].
    + right. exists (x :: before), e, after. repeat split; auto.
      constructor; [unfold not_incorrect; congruence | exact Hb].
  - right. exists [], x, rest. repeat split; auto.
Qed.

Lemma cull_elements : forall now fb pe,
  elements (cull now fb pe) = filter (is_valid now fb Pending) (elements pe).
Proof.
  intros now fb pe. unfold cull.
  destruct (cull_loop_spec now fb (elements pe) pe) as (Hk & _).
  destruct (cull_loop now fb (elements pe) pe) as [kept pe1]. simpl in Hk.
  destruct (150 <? _)%float; simpl; destruct (_ <? 100)%float; exact Hk.
Qed.

(** In a release build [OverlayManager::apply] always completes. It leaves
    the notification engine as it was and only [Pending] predictions in the
    prediction engine; when some prediction was [IncorrectOrExpired] it
    leaves no prediction at all and the score at 0. *)
Theorem OverlayManager_apply_release : forall now m fb,
  exists m' fb',
    OverlayManager_apply ReleaseBuild now m fb = Some (m', fb')
    /\ notifications m' = notifications m
    /\ Forall (fun e => get_validity now e fb = Pending)
         (elements (predictions m'))
    /\ ((exists e, In e (elements (predictions m))
                   /\ get_validity now e fb = IncorrectOrExpired) ->
        elements (predictions m') = [] /\ score (predictions m') = 0).
Proof.
  intros now m fb. unfold OverlayManager_apply.
  set (p := cull now fb (calculate_score now fb (predictions m))).
  assert (Hgate : exists fb1,
            (if score p >? 3 then OverlayEngine_apply ReleaseBuild (elements p) fb
             else Some fb) = Some fb1).
  { destruct (score p >? 3); [apply OverlayEngine_apply_release|now exists fb]. }
  destruct Hgate as [fb1 ->]. simpl.
  destruct (NotificationEngine_apply_release (notifications m) fb1)
    as [fb2 ->]. simpl.
  eexists. eexists. split; [reflexivity|]. simpl.
  split; [reflexivity|]. split.
  - unfold p. rewrite cull_elements. apply filter_all_valid.
  - intros (e & Hin & He).
    assert (Hclear : calculate_score now fb (predictions m)
                     = clear (set_score (predictions m) 0)).
    { unfold calculate_score.
      destruct (first_incorrect now fb (elements (predictions m)))
        as [Hall|(before & e' & after & Hsplit & Hb & He')].
      - exfalso. rewrite Forall_forall in Hall. now apply (Hall e Hin).
      - rewrite Hsplit. now apply calculate_score_loop_stops. }
    unfold p. rewrite Hclear. split.
    + now rewrite cull_elements.
    + now rewrite cull_keeps_score.
Qed.

End Engine_frame.

(** ** Culling twice, scoring after culling *)

Lemma cull_loop_all_pending : forall now fb l pe,
  Forall (fun e => get_validity now e fb = Pending) l ->
  cull_loop now fb l pe = (l, pe).
Proof.
  intros now fb l. induction l as [|i rest IH]; intros pe Hall; simpl.
  - reflexivity.
  - inversion Hall as [|? ? Hi Hrest]; subst. rewrite Hi. simpl.
    now rewrite (IH pe Hrest).
Qed.

Lemma cull_all_pending : forall now fb pe,
  Forall (fun e => get_validity now e fb = Pending) (elements (cull now fb pe)).
Proof. intros. rewrite cull_elements. apply filter_all_valid. Qed.

(** [cull] is idempotent: culling again at the same time against the same
    framebuffer changes neither the elements nor the estimator nor the
    flagging. *)
Theorem cull_idempotent : forall now fb pe,
  cull now fb (cull now fb pe) = cull now fb pe.
Proof.
  intros now fb pe.
  pose proof (cull_all_pending now fb pe) as Hall.
  remember (cull now fb pe) as pe' eqn:Hpe'.
  assert (Hflag : ((150 <? SRTT pe')%float = true -> flagging pe' = true)
                  /\ ((SRTT pe' <? 100)%float = true -> flagging pe' = false)).
  { subst pe'. unfold cull.
    destruct (cull_loop now fb (elements pe) pe) as [kept pe1].
    destruct pe1 as [els sc srtt rttvar hit fl]. unfold set_elements. simpl.
    destruct (150 <? srtt)%float eqn:Hi; simpl.
    - rewrite (above_150_not_below_100 _ Hi). simpl. rewrite Hi.
      split; [reflexivity|]. rewrite (above_150_not_below_100 _ Hi).
      discriminate.
    - destruct (srtt <? 100)%float eqn:Lo; simpl; rewrite Hi, Lo;
        split; congruence. }
  unfold cull at 1. rewrite (cull_loop_all_pending now fb _ pe' Hall).
  destruct Hflag as [Hhi Hlo]. clear Hpe' Hall.
  destruct pe' as [els sc srtt rttvar hit fl]. simpl in *.
  destruct (150 <? srtt)%float eqn:Hi; simpl.
  - rewrite (above_150_not_below_100 _ Hi). now rewrite Hhi.
  - destruct (srtt <? 100)%float eqn:Lo; simpl; [now rewrite Hlo|reflexivity].
Qed.

Lemma count_correct_none : forall now fb l,
  Forall (fun e => get_validity now e fb = Pending) l ->
  count_correct now fb l = 0.
Proof.
  intros now fb l Hall. unfold count_correct.
  induction Hall as [|x rest Hx Hrest IH]; simpl; [reflexivity|].
  unfold is_valid at 1. rewrite Hx. simpl. exact IH.
Qed.

(** A confirmed prediction is scored once: after [cull], [calculate_score]
    at the same time against the same framebuffer changes nothing, so the
    score is the one before. *)
Theorem calculate_score_after_cull : forall now fb pe,
  calculate_score now fb (cull now fb pe) = cull now fb pe.
Proof.
  intros now fb pe. unfold calculate_score.
  pose proof (cull_all_pending now fb pe) as Hall.
  rewrite calculate_score_loop_counts.
  - rewrite (count_correct_none now fb _ Hall), Z.add_0_r.
    apply set_score_same.
  - eapply Forall_impl; [|exact Hall]. intros e He. unfold not_incorrect.
    congruence.
Qed.

Lemma calculate_score_loop_score : forall now fb l pe,
  score (calculate_score_loop now fb l pe) = 0
  \/ score pe <= score (calculate_score_loop now fb l pe).
Proof.
  intros now fb l. induction l as [|i rest IH]; intros pe; simpl.
  - right. lia.
  - destruct (get_validity now i fb).
    + apply IH.
    + destruct (IH (set_score pe (score pe + 1))) as [Z0|Hle];
        [now left | right; simpl in Hle; lia].
    + now left.
Qed.

(** [calculate_score] either resets the score to 0 or does not lower it; a
    score that is not negative stays so. *)
Theorem calculate_score_score : forall now fb pe,
  (score (calculate_score now fb pe) = 0
   \/ score pe <= score (calculate_score now fb pe))
  /\ (0 <= score pe -> 0 <= score (calculate_score now fb pe)).
Proof.
  intros now fb pe. unfold calculate_score.
  destruct (calculate_score_loop_score now fb (elements pe) pe) as [H|H];
    split; auto; lia.
Qed.

(** ** The shape of the prediction list *)

Lemma Forall_conditional_app : forall l e,
  Forall is_conditional_cell l -> is_conditional_cell e ->
  Forall is_conditional_cell (l ++ [e]).
Proof.
  intros l e Hl He. apply Forall_app. split; [exact Hl|].
  constructor; [exact He | constructor].
Qed.

(** On a list of the expected shape [new_user_byte] always has a result, the
    list keeps that shape, and the estimator and the flagging are not
    touched; [calculate_score] keeps the shape too. *)
Theorem prediction_shape_kept : forall now the_byte fb pe,
  prediction_shape (elements pe) ->
  (exists pe',
     new_user_byte now the_byte fb pe = Some pe'
     /\ prediction_shape (elements pe')
     /\ estimator_of pe' = estimator_of pe
     /\ flagging pe' = flagging pe)
  /\ prediction_shape (elements (calculate_score now fb pe)).
Proof.
  intros now the_byte fb pe Hshape. split.
  - unfold new_user_byte.
    assert (Hfront : exists ccm rest,
              elements (anchor_cursor now fb pe)
              = AConditionalCursorMove ccm :: rest
              /\ Forall is_conditional_cell rest).
    { unfold anchor_cursor. destruct (elements pe) as [|e rest] eqn:El.
      - simpl. eexists. exists []. split; [reflexivity | constructor].
      - rewrite El. destruct e; try contradiction.
        exists m, rest. split; [reflexivity | exact Hshape]. }
    destruct Hfront as (ccm & rest & Hel & Hrest).
    assert (Hframe : estimator_of (anchor_cursor now fb pe) = estimator_of pe
                     /\ flagging (anchor_cursor now fb pe) = flagging pe).
    { unfold anchor_cursor. destruct (elements pe); split; reflexivity. }
    destruct Hframe as [Hest Hfl].
    rewrite Hel.
    destruct ((new_row ccm >=? _) || _).
    + eexists. split; [reflexivity|]. rewrite Hel. repeat split; auto.
    + destruct (is_printable the_byte && _).
      * eexists. split; [reflexivity|]. simpl. repeat split; auto.
        apply Forall_conditional_app; [exact Hrest | exact I].
      * eexists. split; [reflexivity|]. simpl. repeat split; auto.
  - unfold calculate_score.
    destruct (first_incorrect now fb (elements pe))
      as [Hall|(before & e & after & Hsplit & Hb & He)].
    + rewrite calculate_score_loop_counts by exact Hall. exact Hshape.
    + rewrite Hsplit, calculate_score_loop_stops by assumption. exact I.
Qed.

(** What a printable byte adds is [Pending] when it is made: the new
    conditional cell and the refreshed cursor move are both [Pending]
    against the framebuffer they were predicted from, the move stays on the
    screen, and both expire between 20 and 2000 ms from now. *)
Theorem fresh_prediction_is_pending : forall now the_byte fb pe ccm rest,
  0 <= now -> now + 2000 < 2 ^ 64 ->
  elements (anchor_cursor now fb pe) = AConditionalCursorMove ccm :: rest ->
  new_row ccm < get_height (ds fb) ->
  new_col ccm < get_width (ds fb) - 2 ->
  32 <= the_byte <= 126 ->
  exists pe' ccm' coc,
    new_user_byte now the_byte fb pe = Some pe'
    /\ elements pe'
       = AConditionalCursorMove ccm' :: rest ++ [AConditionalOverlayCell coc]
    /\ get_validity now (AConditionalCursorMove ccm') fb = Pending
    /\ get_validity now (AConditionalOverlayCell coc) fb = Pending
    /\ new_col ccm' < get_width (ds fb) - 1
    /\ expiration_time (move_base ccm')
       = expiration_time (cell_base (overlay_cell coc))
    /\ now + 20 <= expiration_time (move_base ccm') <= now + 2000.
Proof.
  intros now the_byte fb pe ccm rest Hnow Hmax Hel Hr Hc Hb.
  unfold new_user_byte. rewrite Hel.
  replace ((new_row ccm >=? get_height (ds fb))
           || (new_col ccm >=? get_width (ds fb))) with false
    by (symmetry; apply off_screen_test; lia).
  replace (is_printable the_byte && (new_col ccm <? get_width (ds fb) - 2))
    with true
    by (symmetry; apply andb_true_iff; split;
        [apply is_printable_iff; lia | apply Z.ltb_lt; lia]).
  pose proof (prediction_len_range (anchor_cursor now fb pe)) as Hlen.
  set (len := prediction_len (anchor_cursor now fb pe)) in *.
  assert (Hexp : u64 (now + len) = now + len)
    by (unfold u64; apply Z.mod_small; lia).
  eexists. eexists. eexists. split; [reflexivity|]. simpl.
  split; [reflexivity|]. rewrite Hexp.
  repeat split; try (simpl; lia).
  - unfold ConditionalCursorMove_get_validity. simpl.
    replace ((new_row ccm >=? get_height (ds fb))
             || (new_col ccm + 1 >=? get_width (ds fb))) with false
      by (symmetry; apply off_screen_test; lia).
    now replace (now <? now + len) with true
      by (symmetry; apply Z.ltb_lt; lia).
  - unfold ConditionalOverlayCell_get_validity. simpl.
    replace ((new_row ccm >=? get_height (ds fb))
             || (new_col ccm >=? get_width (ds fb))) with false
      by (symmetry; apply off_screen_test; lia).
    replace (now <? now + len) with true by (symmetry; apply Z.ltb_lt; lia).
    now rewrite (proj2 (Cell_eqb_eq _ _) eq_refl).
Qed.

(** ** The range of the wake-up time *)

Lemma to_int_range : forall z, - 2 ^ 31 <= to_int z < 2 ^ 31.
Proof.
  intros z. unfold to_int.
  pose proof (Z.mod_pos_bound z (2 ^ 32) ltac:(lia)) as Hb.
  destruct (z mod 2 ^ 32 <? 2 ^ 31) eqn:T;
    [apply Z.ltb_lt in T | apply Z.ltb_ge in T]; lia.
Qed.

(** [wait_time] never returns a negative number, whatever the elements and
    the clock. *)
Theorem wait_time_not_negative : forall now m,
  0 <= wait_time now m <= INT_MAX.
Proof.
  intros now m. unfold wait_time.
  set (ret := to_int _). pose proof (to_int_range
    (u64 (next_expiry_loop (elements (predictions m))
            (next_expiry_loop (notification_elements (notifications m))
               UINT64_MAX) - now))) as Hr.
  fold ret in Hr. unfold INT_MAX.
  destruct (ret <? 0) eqn:T; [lia | apply Z.ltb_ge in T; lia].
Qed.

(** ** The layout of the banner *)

Lemma laid_out_snoc : forall now f l start c stop,
  laid_out now f start (l ++ [AnOverlayCell c]) stop
  <-> exists mid,
        laid_out now f start l mid /\ placed now f mid c
        /\ stop = mid + width (replacement c).
Proof.
  intros now f l. induction l as [|e rest IH]; intros start c stop; simpl.
  - split.
    + intros [Hp Hs]. exists start. auto.
    + intros (mid & <- & Hp & ->). auto.
  - destruct e as [oc| | |]; try (split; [tauto | intros (? & [] & _)]).
    rewrite IH. split.
    + intros (Hp & mid & Hl & Hc & Hs). exists mid. auto.
    + intros (mid & [Hp Hl] & Hc & Hs). split; [exact Hp|]. exists mid. auto.
Qed.

Lemma laid_out_stop : forall now f l start stop,
  laid_out now f start l stop -> start <= stop.
Proof.
  intros now f l. induction l as [|e rest IH]; intros start stop; simpl.
  - lia.
  - destruct e as [oc| | |]; try tauto.
    intros [(_ & _ & Hw & _) Hl]. apply IH in Hl. lia.
Qed.

Lemma laid_out_row_zero : forall now f l start stop,
  laid_out now f start l stop ->
  Forall (fun e => exists c, e = AnOverlayCell c /\ row c = 0) l.
Proof.
  intros now f l. induction l as [|e rest IH]; intros start stop; simpl.
  - constructor.
  - destruct e as [oc| | |]; try tauto.
    intros [(Hr & _) Hl]. constructor; [now exists oc | eapply IH; eauto].
Qed.

Section Banner.

Context {L : WideCharLibrary}.

Lemma draw_char_ok : forall b now f ch d d',
  drawing_ok now f d ->
  draw_char b (template_cell now f) ch d = Some d' ->
  drawing_ok now f d'.
Proof.
  intros b now f ch d d' Hd. unfold draw_char.
  set (chwidth := if ch =? 0 then -1 else wcwidth ch).
  destruct ((chwidth =? 1) || (chwidth =? 2)) eqn:Wide.
  - intros H. inversion H; subst d'; clear H. right. simpl.
    split; [reflexivity|]. apply laid_out_snoc.
    assert (Hw : chwidth = 1 \/ chwidth = 2).
    { apply orb_true_iff in Wide. rewrite !Z.eqb_eq in Wide. exact Wide. }
    destruct Hd as [(Hdirty & Hdrawn & Hcol & _)|(Hdirty & Hl)].
    + rewrite Hdirty, Hdrawn, Hcol. exists 0. simpl.
      repeat split; auto. discriminate.
    + rewrite Hdirty. exists (overlay_col d). simpl.
      repeat split; auto. discriminate.
  - destruct (chwidth =? 0) eqn:Zero.
    + intros H. inversion H; subst d'; clear H.
      destruct Hd as [(Hdirty & Hdrawn & Hcol & Hcur)|(Hdirty & Hl)].
      * rewrite Hcur. simpl. right. simpl. split; [reflexivity|].
        rewrite Hdrawn, Hcol. simpl. repeat split; auto. discriminate.
      * apply laid_out_snoc in Hl. destruct Hl as (mid & Hl & Hp & Hs).
        destruct Hp as (Hr & Hc & Hw & Hne & Hb & Hrend & Hf).
        destruct (contents (replacement (current d))) as [|x xs] eqn:Con;
          [contradiction|].
        right. simpl. split; [exact Hdirty|]. apply laid_out_snoc.
        exists mid. split; [exact Hl|]. split; [|exact Hs].
        unfold placed. simpl. rewrite Con. repeat split; auto. discriminate.
    + destruct (chwidth =? -1).
      * intros H. inversion H; subst d'. exact Hd.
      * destruct b; simpl; [discriminate|].
        intros H. inversion H; subst d'. exact Hd.
Qed.

Lemma draw_text_ok : forall b now f text d d',
  drawing_ok now f d ->
  draw_text b (template_cell now f) text d = Some d' ->
  drawing_ok now f d'.
Proof.
  intros b now f text. induction text as [|ch rest IH]; intros d d' Hd; simpl.
  - intros H. inversion H; subst d'. exact Hd.
  - destruct (draw_char b (template_cell now f) ch d) as [d1|] eqn:E;
      simpl; [|discriminate].
    apply IH. eapply draw_char_ok; eauto.
Qed.

(** The state a rendering leaves, when it is not skipped and completes. *)
Lemma render_notification_state : forall b now f ne ne',
  render_notification_skips now ne = false ->
  render_notification b now f ne = Some ne' ->
  needs_render ne' = false /\ last_render ne' = now
  /\ last_word ne' = last_word ne
  /\ message ne' = (if now >=? message_expiration ne then [] else message ne)
  /\ message_expiration ne' = message_expiration ne
  /\ exists stop, laid_out now f 0 (notification_elements ne') stop.
Proof.
  intros b now f ne ne' Hgo. unfold render_notification. rewrite Hgo.
  set (msg := if now >=? message_expiration ne then [] else message ne).
  set (time_expired := u64 (now - last_word ne) >? 5000).
  assert (Hdraw : forall text,
            (d <- draw_text b (template_cell now f) text
                    {| overlay_col := 0; dirty := false;
                       current := template_cell now f; drawn := [] |} ;;
             Some {| notification_elements :=
                       if dirty d then drawn d ++ [AnOverlayCell (current d)]
                       else drawn d;
                     needs_render := false; last_word := last_word ne;
                     last_render := now; message := msg;
                     message_expiration := message_expiration ne |}) = Some ne' ->
            needs_render ne' = false /\ last_render ne' = now
            /\ last_word ne' = last_word ne /\ message ne' = msg
            /\ message_expiration ne' = message_expiration ne
            /\ exists stop, laid_out now f 0 (notification_elements ne') stop).
  { intros text.
    destruct (draw_text b (template_cell now f) text _) as [d|] eqn:E;
      simpl; [|discriminate].
    intros H. inversion H; subst ne'; clear H. simpl.
    repeat split.
    assert (Hok : drawing_ok now f d).
    { eapply draw_text_ok; [|exact E]. left. simpl. auto. }
    destruct Hok as [(Hdirty & Hdrawn & _)|(Hdirty & Hl)]; rewrite Hdirty.
    - rewrite Hdrawn. now exists 0.
    - now exists (overlay_col d). }
  destruct msg as [|c msg'] eqn:Hmsg; [destruct time_expired|];
    try apply Hdraw.
  intros H. inversion H; subst ne'. simpl. repeat split. now exists 0.
Qed.

Lemma render_notification_release : forall now f ne,
  exists ne', render_notification ReleaseBuild now f ne = Some ne'.
Proof.
  intros now f ne. unfold render_notification.
  destruct (render_notification_skips now ne); [now exists ne|].
  assert (Hdraw : forall text d (k : Drawing -> NotificationEngine), exists ne',
            (d' <- draw_text ReleaseBuild (template_cell now f) text d ;;
             Some (k d')) = Some ne').
  { intros text d k.
    destruct (draw_text_release (template_cell now f) text d) as [d' ->].
    simpl. now eexists. }
  destruct (if now >=? message_expiration ne then [] else message ne);
    [destruct (u64 (now - last_word ne) >? 5000)|];
    try (now eexists);
    apply (Hdraw _ _ (fun d => {| notification_elements := _ |})).
Qed.

(** A rendering always completes in a release build. When it is not skipped
    it leaves banner cells that tile row 0 from column 0 on without gap or
    overlap: each cell is one or two columns wide, has contents, is bold
    white on blue and expires 1100 ms after the rendering. The column -1 of
    the template never reaches the list. *)
Theorem render_notification_layout : forall now f ne,
  (exists ne', render_notification ReleaseBuild now f ne = Some ne')
  /\ forall b ne',
       render_notification_skips now ne = false ->
       render_notification b now f ne = Some ne' ->
       exists stop,
         laid_out now f 0 (notification_elements ne') stop /\ 0 <= stop.
Proof.
  intros now f ne. split; [apply render_notification_release|].
  intros b ne' Hgo Hr.
  destruct (render_notification_state b now f ne ne' Hgo Hr)
    as (_ & _ & _ & _ & _ & stop & Hl).
  exists stop. split; [exact Hl|]. eapply laid_out_stop. exact Hl.
Qed.

(** After a completed rendering the next one is skipped while less than
    250 ms have passed, unless a notification string is set in between. *)
Theorem render_notification_cadence : forall b now f ne ne',
  render_notification_skips now ne = false ->
  render_notification b now f ne = Some ne' ->
  (forall b' now' f',
     u64 (now' - now) < 250 ->
     render_notification b' now' f' ne' = Some ne')
  /\ (forall now' now'' s,
        render_notification_skips now''
          (set_notification_string now' s ne') = false).
Proof.
  intros b now f ne ne' Hgo Hr.
  destruct (render_notification_state b now f ne ne' Hgo Hr)
    as (Hneeds & Hlast & _).
  split.
  - intros b' now' f' Hsoon. unfold render_notification.
    unfold render_notification_skips. rewrite Hneeds, Hlast.
    now rewrite (proj2 (Z.ltb_lt _ _) Hsoon).
  - intros now' now'' s. unfold render_notification_skips. simpl.
    apply andb_false_r.
Qed.

(** A notification string lives 1100 ms: the rendering that follows
    [set_notification_string] is never skipped, and it keeps the string while
    the clock is before the time of the call plus 1100 ms (in 64-bit
    arithmetic) and clears it from then on. *)
Theorem notification_string_lifetime : forall b now0 now f s ne ne',
  render_notification b now f (set_notification_string now0 s ne) = Some ne' ->
  needs_render ne' = false
  /\ last_render ne' = now
  /\ (now < u64 (now0 + 1100) -> message ne' = s)
  /\ (u64 (now0 + 1100) <= now -> message ne' = []).
Proof.
  intros b now0 now f s ne ne' Hr.
  assert (Hgo : render_notification_skips now
                  (set_notification_string now0 s ne) = false).
  { unfold render_notification_skips. simpl. apply andb_false_r. }
  destruct (render_notification_state b now f _ ne' Hgo Hr)
    as (Hneeds & Hlast & _ & Hmsg & _).
  simpl in Hmsg. repeat split; auto.
  - intros Hlt. rewrite Hmsg.
    now replace (now >=? u64 (now0 + 1100)) with false
      by (symmetry; rewrite Z.geb_leb; apply Z.leb_gt; lia).
  - intros Hge. rewrite Hmsg.
    now replace (now >=? u64 (now0 + 1100)) with true
      by (symmetry; rewrite Z.geb_leb; apply Z.leb_le; lia).
Qed.


(** With no message to show and the server heard within 5000 ms, a
    rendering that is not skipped removes the banner, in either build and
    without a call to the library. *)
Lemma render_notification_idle_result : forall b now f ne,
  render_notification_skips now ne = false ->
  message ne = [] \/ message_expiration ne <= now ->
  u64 (now - last_word ne) <= 5000 ->
  render_notification b now f ne
  = Some {| notification_elements := []; needs_render := false;
            last_word := last_word ne; last_render := now; message := [];
            message_expiration := message_expiration ne |}.
Proof.
  intros b now f ne Hgo Hmsg Hrecent. unfold render_notification.
  rewrite Hgo.
  replace (if now >=? message_expiration ne then [] else message ne)
    with (@nil Z).
  - now replace (u64 (now - last_word ne) >? 5000) with false
      by (symmetry; rewrite Z.gtb_ltb; apply Z.ltb_ge; lia).
  - destruct Hmsg as [-> | Hexp]; [now destruct (now >=? _)|].
    now replace (now >=? message_expiration ne) with true
      by (symmetry; rewrite Z.geb_leb; apply Z.leb_le; lia).
Qed.

End Banner.

(** ** Applying the banner *)

Lemma draw_bar_ds : forall n i fb, ds (draw_bar i n fb) = ds fb.
Proof.
  induction n as [|n IH]; intros i fb; simpl; [reflexivity|].
  now rewrite IH, ds_set_cell.
Qed.

Lemma draw_bar_other : forall n i fb r c,
  r <> 0 \/ c < i \/ i + Z.of_nat n <= c ->
  get_cell (draw_bar i n fb) r c = get_cell fb r c.
Proof.
  induction n as [|n IH]; intros i fb r c Hfar; simpl; [reflexivity|].
  rewrite IH by lia. apply get_set_other. intros E. inversion E. lia.
Qed.

Lemma draw_bar_in_grid : forall n i fb r c,
  in_grid (draw_bar i n fb) r c <-> in_grid fb r c.
Proof.
  induction n as [|n IH]; intros i fb r c; simpl; [tauto|].
  now rewrite IH, in_grid_set_cell.
Qed.

Lemma draw_bar_drawn : forall n i fb c,
  i <= c < i + Z.of_nat n -> in_grid fb 0 c ->
  get_cell (draw_bar i n fb) 0 c = notification_bar.
Proof.
  induction n as [|n IH]; intros i fb c Hc Hin; simpl; [lia|].
  destruct (Z.eq_dec c i) as [->|Hne].
  - rewrite draw_bar_other by lia. now apply get_set_same.
  - apply IH; [lia|]. now apply in_grid_set_cell.
Qed.

Section Banner_on_screen.

Context {M : CursorMotion} {L : WideCharLibrary}.

Lemma OverlayEngine_apply_cells : forall b l fb,
  Forall (fun e => exists c, e = AnOverlayCell c /\ row c = 0) l ->
  exists fb',
    OverlayEngine_apply b l fb = Some fb' /\ ds fb' = ds fb
    /\ forall r c, r <> 0 -> get_cell fb' r c = get_cell fb r c.
Proof.
  intros b l. induction l as [|e rest IH]; intros fb Hall.
  - exists fb. simpl. auto.
  - inversion Hall as [|? ? (oc & -> & Hrow) Hrest]; subst. simpl.
    destruct (IH (OverlayCell_apply oc fb) Hrest) as (fb' & Happ & Hds & Hfr).
    exists fb'. split; [exact Happ|]. split.
    + now rewrite Hds, OverlayCell_apply_ds.
    + intros r c Hr. rewrite (Hfr r c Hr). apply OverlayCell_apply_other.
      intros E. inversion E. lia.
Qed.

Lemma laid_out_untargeted : forall now f l start stop c,
  laid_out now f start l stop -> start <= stop <= c -> ~ targeted l 0 c.
Proof.
  intros now f l. induction l as [|e rest IH]; intros start stop c Hl Hc.
  - intros (e & oc & [] & _).
  - destruct e as [oc'| | |]; simpl in Hl; try contradiction.
    destruct Hl as [(Hr & Hcol & Hw & _) Hl].
    pose proof (laid_out_stop _ _ _ _ _ Hl) as Hle.
    intros (e & oc & [<-|Hin] & Hoc & Hrow & Hc').
    + simpl in Hoc. inversion Hoc; subst oc. lia.
    + apply (IH _ _ c Hl); [lia|]. exists e, oc. auto.
Qed.

(** The banner stays in row 0. After a rendering that was not skipped,
    [NotificationEngine::apply] completes in a release build, and in a debug
    build on a screen with a positive width and height; it changes no cell
    outside row 0 and nothing of the draw state but the cursor visibility,
    which it clears when there are banner cells and the cursor is on row 0.
    With banner cells, the columns of row 0 behind the last cell show the
    blank bar; without them the framebuffer is left as it is. *)
Theorem banner_stays_in_row_zero : forall b now f ne ne' b' fb,
  render_notification_skips now ne = false ->
  render_notification b now f ne = Some ne' ->
  b' = ReleaseBuild \/ (0 < get_width (ds fb) /\ 0 < get_height (ds fb)) ->
  exists fb' stop,
    NotificationEngine_apply b' ne' fb = Some fb'
    /\ laid_out now f 0 (notification_elements ne') stop
    /\ (forall r c, r <> 0 -> get_cell fb' r c = get_cell fb r c)
    /\ ds fb'
       = (if match notification_elements ne' with [] => false | _ :: _ => true end
             && (get_cursor_row (ds fb) =? 0)
          then set_cursor_visible (ds fb) false else ds fb)
    /\ (notification_elements ne' = [] -> fb' = fb)
    /\ (notification_elements ne' <> [] ->
        forall c, stop <= c < get_width (ds fb) -> in_grid fb 0 c ->
                  get_cell fb' 0 c = notification_bar).
Proof.
  intros b now f ne ne' b' fb Hgo Hr Hbuild.
  destruct (render_notification_state b now f ne ne' Hgo Hr)
    as (_ & _ & _ & _ & _ & stop & Hl).
  pose proof (laid_out_row_zero _ _ _ _ _ Hl) as Hrows.
  pose proof (laid_out_stop _ _ _ _ _ Hl) as Hstop.
  unfold NotificationEngine_apply.
  destruct (notification_elements ne') as [|e rest] eqn:El.
  { exists fb, stop. simpl. repeat split; auto. congruence. }
  assert (Hassert : forall cond : bool,
            (b' = ReleaseBuild \/ cond = true) -> c_assert b' cond = Some tt).
  { intros cond [-> | ->]; [reflexivity | now destruct b']. }
  rewrite (Hassert (get_width (ds fb) >? 0)), (Hassert (get_height (ds fb) >? 0))
    by (destruct Hbuild as [?|[? ?]]; [now left | right; apply Z.gtb_lt; lia]).
  simpl bind.
  set (fb1 := draw_bar 0 (Z.to_nat (get_width (ds fb))) fb).
  set (fb2 := if get_cursor_row (ds fb1) =? 0
              then set_ds fb1 (set_cursor_visible (ds fb1) false) else fb1).
  assert (Hds1 : ds fb1 = ds fb) by apply draw_bar_ds.
  assert (Hcells2 : forall r c, get_cell fb2 r c = get_cell fb1 r c).
  { intros r c. unfold fb2. now destruct (_ =? 0). }
  destruct (OverlayEngine_apply_cells b' (e :: rest) fb2 Hrows)
    as (fb' & Happ & Hds & Hfr).
  exists fb', stop. split; [exact Happ|].
  split; [exact Hl|]. split; [|split; [|split]].
  - intros r c Hrc. rewrite (Hfr r c Hrc), Hcells2.
    apply draw_bar_other. now left.
  - rewrite Hds. unfold fb2. rewrite Hds1. simpl.
    now destruct (get_cursor_row (ds fb) =? 0).
  - discriminate.
  - intros _ c Hc Hin.
    rewrite (OverlayEngine_apply_other b' (e :: rest) fb2 fb' 0 c Happ).
    + rewrite Hcells2. apply draw_bar_drawn; [lia | exact Hin].
    + rewrite <- El in *. eapply laid_out_untargeted; [exact Hl | lia].
Qed.

(** With no message to show and the server heard within 5000 ms, a
    rendering that is not skipped removes the banner, in either build, and
    [NotificationEngine::apply] then returns the framebuffer as it is. *)
Theorem render_notification_idle : forall b now f ne b' fb,
  render_notification_skips now ne = false ->
  message ne = [] \/ message_expiration ne <= now ->
  u64 (now - last_word ne) <= 5000 ->
  exists ne',
    render_notification b now f ne = Some ne'
    /\ notification_elements ne' = [] /\ message ne' = []
    /\ needs_render ne' = false /\ last_render ne' = now
    /\ NotificationEngine_apply b' ne' fb = Some fb.
Proof.
  intros b now f ne b' fb Hgo Hmsg Hrecent.
  rewrite (render_notification_idle_result b now f ne Hgo Hmsg Hrecent).
  eexists. split; [reflexivity|]. simpl. repeat split.
Qed.

End Banner_on_screen.

(** ** Instances of the properties above *)

Lemma OverlayCell_apply_effect_witness :
  get_cell (OverlayCell_apply flagged_a (screen 1 4 0 0)) 0 1
  = underline (letter 97)
  /\ (forall r c, (0, 1) <> (r, c) ->
        get_cell (OverlayCell_apply flagged_a (screen 1 4 0 0)) r c
        = get_cell (screen 1 4 0 0) r c)
  /\ ds (OverlayCell_apply flagged_a (screen 1 4 0 0)) = ds (screen 1 4 0 0).
Proof.
  apply (OverlayCell_apply_effect flagged_a (screen 1 4 0 0)).
  - simpl. lia.
  - simpl. lia.
  - unfold in_grid. simpl. lia.
Defined.

Lemma OverlayEngine_apply_frame_witness :
  match
    @OverlayEngine_apply snapping_motion DebugBuild
      [AConditionalCursorMove move_to_cursor; AnOverlayCell flagged_a]
      (screen 1 4 0 0)
  with
  | Some fb' => get_cell fb' 0 2 = get_cell (screen 1 4 0 0) 0 2
  | None => False
  end.
Proof.
  destruct (@OverlayEngine_apply snapping_motion DebugBuild
              [AConditionalCursorMove move_to_cursor; AnOverlayCell flagged_a]
              (screen 1 4 0 0)) as [fb'|] eqn:E.
  - apply (proj2 (@OverlayEngine_apply_frame snapping_motion _ _)
             DebugBuild fb' 0 2 E).
    intros (e & oc & Hin & Hoc & _ & Hc).
    destruct Hin as [<-|[<-|[]]]; simpl in Hoc; [discriminate|].
    inversion Hoc; subst oc. discriminate Hc.
  - vm_compute in E. discriminate E.
Defined.

Lemma OverlayManager_apply_release_witness :
  exists m' fb',
    @OverlayManager_apply storing_motion ReleaseBuild 50
      {| notifications := quiet_notifications;
         predictions :=
           engine_with [prediction_at 0 97 100; prediction_at 1 98 20] 2 |}
      typed_a
    = Some (m', fb')
    /\ elements (predictions m') = [] /\ score (predictions m') = 0.
Proof.
  destruct (@OverlayManager_apply_release storing_motion 50
              {| notifications := quiet_notifications;
                 predictions :=
                   engine_with [prediction_at 0 97 100; prediction_at 1 98 20] 2 |}
              typed_a) as (m' & fb' & Happ & _ & _ & Hclear).
  exists m', fb'. split; [exact Happ|]. apply Hclear.
  exists (prediction_at 1 98 20). split; [right; now left | reflexivity].
Defined.

Lemma calculate_score_score_witness :
  0 <= score (calculate_score 50 typed_a
                (engine_with [prediction_at 0 97 100; prediction_at 1 98 100] 2)).
Proof.
  apply (proj2 (calculate_score_score 50 typed_a
                  (engine_with [prediction_at 0 97 100; prediction_at 1 98 100] 2))).
  simpl. lia.
Defined.

Lemma prediction_shape_kept_witness :
  (exists pe',
     new_user_byte 20 98 (screen 1 4 0 0) after_a = Some pe'
     /\ prediction_shape (elements pe')
     /\ estimator_of pe' = estimator_of after_a
     /\ flagging pe' = flagging after_a)
  /\ prediction_shape (elements (calculate_score 20 (screen 1 4 0 0) after_a)).
Proof.
  apply (prediction_shape_kept 20 98 (screen 1 4 0 0) after_a).
  simpl. repeat constructor.
Defined.

Lemma fresh_prediction_is_pending_witness :
  exists pe' ccm' coc,
    new_user_byte 10 97 (screen 1 4 0 0) (engine_with [] 0) = Some pe'
    /\ elements pe'
       = AConditionalCursorMove ccm' :: [] ++ [AConditionalOverlayCell coc]
    /\ get_validity 10 (AConditionalCursorMove ccm') (screen 1 4 0 0) = Pending
    /\ get_validity 10 (AConditionalOverlayCell coc) (screen 1 4 0 0) = Pending
    /\ new_col ccm' < get_width (ds (screen 1 4 0 0)) - 1
    /\ expiration_time (move_base ccm')
       = expiration_time (cell_base (overlay_cell coc))
    /\ 10 + 20 <= expiration_time (move_base ccm') <= 10 + 2000.
Proof.
  apply (fresh_prediction_is_pending 10 97 (screen 1 4 0 0) (engine_with [] 0)
           (CursorMove_new 10 2010 0 0) []).
  - lia.
  - lia.
  - reflexivity.
  - simpl. lia.
  - simpl. lia.
  - lia.
Defined.

Lemma render_notification_layout_witness :
  match @render_notification example_library DebugBuild 100 false greeting with
  | Some ne' =>
      exists stop,
        laid_out 100 false 0 (notification_elements ne') stop /\ 0 <= stop
  | None => False
  end.
Proof.
  destruct (@render_notification example_library DebugBuild 100 false greeting)
    as [ne'|] eqn:E.
  - apply (proj2 (@render_notification_layout example_library 100 false greeting)
             DebugBuild ne'); [reflexivity | exact E].
  - vm_compute in E. discriminate E.
Defined.

Lemma render_notification_cadence_witness :
  match @render_notification example_library DebugBuild 100 false greeting with
  | Some ne' =>
      @render_notification example_library DebugBuild 349 false ne' = Some ne'
  | None => False
  end.
Proof.
  destruct (@render_notification example_library DebugBuild 100 false greeting)
    as [ne'|] eqn:E.
  - apply (proj1 (@render_notification_cadence example_library DebugBuild 100
                    false greeting ne' eq_refl E)).
    vm_compute. reflexivity.
  - vm_compute in E. discriminate E.
Defined.

Lemma notification_string_lifetime_witness :
  match @render_notification example_library DebugBuild 100 false greeting,
        @render_notification example_library DebugBuild 1150 false greeting
  with
  | Some early, Some late => message early = [104; 105] /\ message late = []
  | _, _ => False
  end.
Proof.
  destruct (@render_notification example_library DebugBuild 100 false greeting)
    as [early|] eqn:E1; [|vm_compute in E1; discriminate E1].
  destruct (@render_notification example_library DebugBuild 1150 false greeting)
    as [late|] eqn:E2; [|vm_compute in E2; discriminate E2].
  pose proof (@notification_string_lifetime example_library DebugBuild 50 100
                false [104; 105] (NotificationEngine_new 0) early E1)
    as (_ & _ & Hkeep & _).
  pose proof (@notification_string_lifetime example_library DebugBuild 50 1150
                false [104; 105] (NotificationEngine_new 0) late E2)
    as (_ & _ & _ & Hdrop).
  split; [apply Hkeep | apply Hdrop]; vm_compute; congruence.
Defined.

Lemma banner_stays_in_row_zero_witness :
  match @render_notification example_library DebugBuild 100 false greeting with
  | Some ne' =>
      exists fb' stop,
        @NotificationEngine_apply snapping_motion DebugBuild ne' (screen 2 12 0 0)
        = Some fb'
        /\ laid_out 100 false 0 (notification_elements ne') stop
        /\ (forall r c, r <> 0 ->
              get_cell fb' r c = get_cell (screen 2 12 0 0) r c)
        /\ cursor_visible (ds fb') = false
  | None => False
  end.
Proof.
  destruct (@render_notification example_library DebugBuild 100 false greeting)
    as [ne'|] eqn:E; [|vm_compute in E; discriminate E].
  destruct (@banner_stays_in_row_zero snapping_motion example_library
              DebugBuild 100 false greeting ne' DebugBuild (screen 2 12 0 0)
              eq_refl E)
    as (fb' & stop & Happ & Hl & Hrows & Hds & _).
  - right. simpl. lia.
  - exists fb', stop. repeat split; auto. rewrite Hds.
    vm_compute in E. inversion E; subst ne'. reflexivity.
Defined.

Lemma render_notification_idle_witness :
  exists ne',
    @render_notification example_library DebugBuild 1200 false greeting
    = Some ne'
    /\ notification_elements ne' = [] /\ message ne' = []
    /\ needs_render ne' = false /\ last_render ne' = 1200
    /\ @NotificationEngine_apply snapping_motion DebugBuild ne' (screen 1 4 0 0)
       = Some (screen 1 4 0 0).
Proof.
  apply (@render_notification_idle snapping_motion example_library
           DebugBuild 1200 false greeting DebugBuild (screen 1 4 0 0)).
  - reflexivity.
  - right. simpl. vm_compute. discriminate.
  - vm_compute. discriminate.
Defined.

(** ** Typing a run of printable bytes *)

Lemma new_user_byte_printable : forall now the_byte fb pe ccm rest,
  elements pe = AConditionalCursorMove ccm :: rest ->
  32 <= the_byte <= 126 ->
  new_row ccm < get_height (ds fb) ->
  new_col ccm < get_width (ds fb) - 2 ->
  exists pe' ccm' coc,
    new_user_byte now the_byte fb pe = Some pe'
    /\ elements pe'
       = AConditionalCursorMove ccm' :: (rest ++ [AConditionalOverlayCell coc])
    /\ new_row ccm' = new_row ccm /\ new_col ccm' = new_col ccm + 1
    /\ prediction_summary coc = (new_row ccm, new_col ccm, [the_byte])
    /\ score pe' = score pe.
Proof.
  intros now the_byte fb pe ccm rest Hel Hb Hr Hc.
  assert (Ha : anchor_cursor now fb pe = pe)
    by (unfold anchor_cursor; now rewrite Hel).
  unfold new_user_byte. rewrite Ha, Hel.
  replace ((new_row ccm >=? get_height (ds fb))
           || (new_col ccm >=? get_width (ds fb))) with false
    by (symmetry; apply off_screen_test; lia).
  replace (is_printable the_byte && (new_col ccm <? get_width (ds fb) - 2))
    with true
    by (symmetry; apply andb_true_iff; split;
        [apply is_printable_iff; lia | apply Z.ltb_lt; lia]).
  eexists. eexists. eexists. split; [reflexivity|]. simpl. repeat split.
Qed.

Lemma type_bytes_from_front : forall keys fb pe ccm rest,
  elements pe = AConditionalCursorMove ccm :: rest ->
  Forall (fun k => 32 <= snd k <= 126) keys ->
  new_row ccm < get_height (ds fb) ->
  new_col ccm + Z.of_nat (length keys) <= get_width (ds fb) - 2 ->
  exists pe' ccm' cells,
    type_bytes keys fb pe = Some pe'
    /\ elements pe'
       = AConditionalCursorMove ccm' :: (rest ++ map AConditionalOverlayCell cells)
    /\ new_row ccm' = new_row ccm
    /\ new_col ccm' = new_col ccm + Z.of_nat (length keys)
    /\ map prediction_summary cells
       = typed_from (new_row ccm) (new_col ccm) keys
    /\ score pe' = score pe.
Proof.
  induction keys as [|[now b] keys IH]; intros fb pe ccm rest Hel Hp Hr Hc.
  - exists pe, ccm, []. simpl. rewrite app_nil_r.
    repeat split; auto. lia.
  - inversion Hp as [|? ? Hb Hrest]; subst. simpl in Hb.
    change (Z.of_nat (length ((now, b) :: keys)))
      with (Z.of_nat (S (length keys))) in Hc.
    destruct (new_user_byte_printable now b fb pe ccm rest Hel Hb Hr)
      as (pe1 & ccm1 & coc & Hstep & Hel1 & Hr1 & Hc1 & Hsum & Hs1); [lia|].
    destruct (IH fb pe1 ccm1 _ Hel1 Hrest) as
      (pe' & ccm' & cells & Hrun & Hel' & Hr' & Hc' & Hsums & Hs'); [lia|lia|].
    exists pe', ccm', (coc :: cells). simpl. rewrite Hstep. simpl.
    split; [exact Hrun|]. split.
    + rewrite Hel', <- app_assoc. reflexivity.
    + simpl. rewrite Hsum, Hsums, Hr1, Hc1.
      repeat split; try lia; congruence.
Qed.

Lemma new_user_byte_anchored : forall now the_byte fb pe,
  new_user_byte now the_byte fb pe
  = new_user_byte now the_byte fb (anchor_cursor now fb pe).
Proof.
  intros now the_byte fb pe. unfold new_user_byte.
  replace (anchor_cursor now fb (anchor_cursor now fb pe))
    with (anchor_cursor now fb pe); [reflexivity|].
  unfold anchor_cursor.
  destruct (elements pe) eqn:E; simpl; [reflexivity | now rewrite E].
Qed.

(** A run of printable bytes that fits before the last two columns is
    predicted cell by cell: after the run the list holds, behind what it held
    before, one conditional cell per byte, in typing order, on the row of the
    predicted cursor and in consecutive columns from it, each with its byte
    as contents; the predicted cursor has advanced by the length of the run,
    and the score is the one before. Nothing is merged or dropped. *)
Theorem typed_run_is_predicted : forall now the_byte keys fb pe ccm rest,
  elements (anchor_cursor now fb pe) = AConditionalCursorMove ccm :: rest ->
  Forall (fun k => 32 <= snd k <= 126) ((now, the_byte) :: keys) ->
  new_row ccm < get_height (ds fb) ->
  new_col ccm + Z.of_nat (length ((now, the_byte) :: keys))
  <= get_width (ds fb) - 2 ->
  exists pe' ccm' cells,
    type_bytes ((now, the_byte) :: keys) fb pe = Some pe'
    /\ elements pe'
       = AConditionalCursorMove ccm' :: (rest ++ map AConditionalOverlayCell cells)
    /\ new_row ccm' = new_row ccm
    /\ new_col ccm'
       = new_col ccm + Z.of_nat (length ((now, the_byte) :: keys))
    /\ map prediction_summary cells
       = typed_from (new_row ccm) (new_col ccm) ((now, the_byte) :: keys)
    /\ score pe' = score pe.
Proof.
  intros now the_byte keys fb pe ccm rest Hel Hp Hr Hc.
  destruct (type_bytes_from_front ((now, the_byte) :: keys) fb
              (anchor_cursor now fb pe) ccm rest Hel Hp Hr Hc)
    as (pe' & ccm' & cells & Hrun & Hrest).
  exists pe', ccm', cells. split; [|].
  - simpl in *. rewrite new_user_byte_anchored. exact Hrun.
  - destruct Hrest as (H1 & H2 & H3 & H4 & H5).
    repeat split; auto. rewrite H5.
    unfold anchor_cursor. now destruct (elements pe).
Qed.

Lemma typed_run_is_predicted_witness :
  exists pe' ccm' cells,
    type_bytes [(10, 104); (15, 105)] (screen 1 6 0 1) (engine_with [] 3)
    = Some pe'
    /\ elements pe'
       = AConditionalCursorMove ccm' :: ([] ++ map AConditionalOverlayCell cells)
    /\ new_row ccm' = 0
    /\ new_col ccm' = 1 + 2
    /\ map prediction_summary cells = [(0, 1, [104]); (0, 2, [105])]
    /\ score pe' = 3.
Proof.
  apply (typed_run_is_predicted 10 104 [(15, 105)] (screen 1 6 0 1)
           (engine_with [] 3) (CursorMove_new 10 2010 0 1) []).
  - reflexivity.
  - repeat constructor; simpl; lia.
  - simpl. lia.
  - simpl. lia.
Defined.

(** ** The estimator under the operations of the engine *)

(** The operations of the prediction engine keep SRTT and RTTVAR from
    becoming negative: [cull] feeds them samples that are not negative, and
    [calculate_score] and [new_user_byte] do not touch them. So after any of
    them [prediction_len] is the rounded-up value clamped to [20, 2000]. *)
Theorem estimator_stays_not_negative : forall now the_byte fb pe,
  not_negative (SRTT pe) -> not_negative (RTTVAR pe) ->
  let good (p : PredictionEngine) :=
    not_negative (SRTT p) /\ not_negative (RTTVAR p)
    /\ prediction_len p
       = spec_round_up_clamped (1.25 * SRTT p + 8 * RTTVAR p) in
  good (cull now fb pe)
  /\ good (calculate_score now fb pe)
  /\ (forall pe', new_user_byte now the_byte fb pe = Some pe' -> good pe').
Proof.
  intros now the_byte fb pe HS HV good.
  assert (Hgood : forall p,
            not_negative (SRTT p) -> not_negative (RTTVAR p) -> good p).
  { intros p Hs Hv. unfold good. repeat split; auto.
    apply prediction_len_is_clamp. auto with sign. }
  assert (Hsame : forall p,
            estimator_of p = estimator_of pe -> good p).
  { intros p Hp. unfold estimator_of in Hp. inversion Hp as [[Hh Hs Hv]].
    apply Hgood; congruence. }
  split; [|split].
  - pose proof (cull_feeds_samples now fb pe) as Hc.
    destruct (feed_samples_not_negative
                (map (fun e => u64 (now - prediction_time (element_base e)))
                   (filter (is_valid now fb Correct) (elements pe)))
                pe HS HV) as [Hs Hv].
    unfold estimator_of in Hc. inversion Hc as [[Hh Hs' Hv']].
    apply Hgood; congruence.
  - apply Hsame. unfold calculate_score.
    destruct (first_incorrect now fb (elements pe))
      as [Hall|(before & e & after & Hsplit & Hb & He)].
    + now rewrite calculate_score_loop_counts by exact Hall.
    + now rewrite Hsplit, calculate_score_loop_stops by assumption.
  - intros pe' Hn. apply Hsame. unfold new_user_byte in Hn.
    assert (Ha : estimator_of (anchor_cursor now fb pe) = estimator_of pe)
      by (unfold anchor_cursor; now destruct (elements pe)).
    destruct (elements (anchor_cursor now fb pe)) as [|[| |?|ccm] rest];
      try discriminate.
    destruct ((new_row ccm >=? _) || _); [inversion Hn; subst; exact Ha|].
    destruct (is_printable the_byte && _); inversion Hn; subst; exact Ha.
Qed.

Lemma estimator_stays_not_negative_witness :
  prediction_len (cull 300 typed_a confirmed_and_waiting)
  = spec_round_up_clamped
      (1.25 * SRTT (cull 300 typed_a confirmed_and_waiting)
       + 8 * RTTVAR (cull 300 typed_a confirmed_and_waiting)).
Proof.
  destruct (estimator_stays_not_negative 300 97 typed_a confirmed_and_waiting)
    as [(_ & _ & Hlen) _]; [reflexivity | reflexivity | exact Hlen].
Defined.

(** ** The wake-up for a banner *)

Lemma next_expiry_loop_same : forall l t n,
  Forall (fun e => expiration_time (element_base e) = t) l ->
  l <> [] -> t <= n ->
  next_expiry_loop l n = t.
Proof.
  intros l t n Hall Hne Hle. rewrite next_expiry_loop_min.
  revert n Hle Hne. induction Hall as [|e rest He Hrest IH]; intros n Hle Hne.
  - contradiction.
  - simpl. rewrite He. destruct rest as [|e' rest'].
    + simpl. lia.
    + apply IH; [lia | discriminate].
Qed.

Lemma laid_out_expiry : forall now f l start stop,
  laid_out now f start l stop ->
  Forall (fun e => expiration_time (element_base e) = u64 (now + 1100)) l.
Proof.
  intros now f l. induction l as [|e rest IH]; intros start stop; simpl.
  - constructor.
  - destruct e as [oc| | |]; try tauto.
    intros [(_ & _ & _ & _ & Hb & _) Hl]. constructor; [|eapply IH; eauto].
    simpl. now rewrite Hb.
Qed.

Section Banner_wake_up.

Context {L : WideCharLibrary}.

(** While a banner is showing and no prediction is held, [wait_time] counts
    down to the expiration of the banner cells, 1100 ms after the rendering,
    and returns [INT_MAX] once that time has passed. *)
Theorem banner_wake_up : forall b now f ne ne' p now',
  render_notification_skips now ne = false ->
  render_notification b now f ne = Some ne' ->
  notification_elements ne' <> [] ->
  elements p = [] ->
  0 <= now -> now + 1100 < 2 ^ 64 ->
  (now <= now' <= now + 1100 ->
   wait_time now' {| notifications := ne'; predictions := p |}
   = now + 1100 - now')
  /\ (now + 1100 < now' <= now + 1100 + 2 ^ 31 ->
      wait_time now' {| notifications := ne'; predictions := p |} = INT_MAX).
Proof.
  intros b now f ne ne' p now' Hgo Hr Hne Hp Hnow Hmax.
  destruct (render_notification_state b now f ne ne' Hgo Hr)
    as (_ & _ & _ & _ & _ & stop & Hl).
  pose proof (laid_out_expiry _ _ _ _ _ Hl) as Hexp.
  assert (Hnext : next_expiry_of {| notifications := ne'; predictions := p |}
                  = now + 1100).
  { unfold next_expiry_of. simpl. rewrite Hp, app_nil_r.
    rewrite <- next_expiry_loop_min.
    rewrite (next_expiry_loop_same _ (u64 (now + 1100)) UINT64_MAX Hexp Hne).
    - unfold u64. apply Z.mod_small. lia.
    - unfold u64, UINT64_MAX.
      pose proof (Z.mod_pos_bound (now + 1100) (2 ^ 64) ltac:(lia)). lia. }
  assert (Hwait : - 2 ^ 31 <= now + 1100 - now' < 2 ^ 31 ->
            wait_time now' {| notifications := ne'; predictions := p |}
            = if now + 1100 - now' <? 0 then INT_MAX else now + 1100 - now').
  { intros Hrange. unfold wait_time.
    rewrite !next_expiry_loop_min, <- fold_left_app, <- map_app.
    fold (next_expiry_of {| notifications := ne'; predictions := p |}).
    rewrite Hnext. now rewrite to_int_u64_small. }
  split; intros Hwhen; (rewrite Hwait; [|lia]).
  - now replace (now + 1100 - now' <? 0) with false
      by (symmetry; apply Z.ltb_ge; lia).
  - now replace (now + 1100 - now' <? 0) with true
      by (symmetry; apply Z.ltb_lt; lia).
Qed.

End Banner_wake_up.

Lemma banner_wake_up_witness :
  match @render_notification example_library DebugBuild 100 false greeting with
  | Some ne' =>
      wait_time 700 {| notifications := ne'; predictions := fresh_engine |}
      = 500
  | None => False
  end.
Proof.
  destruct (@render_notification example_library DebugBuild 100 false greeting)
    as [ne'|] eqn:E; [|vm_compute in E; discriminate E].
  assert (Hne : notification_elements ne' <> [])
    by (pose proof E as E'; vm_compute in E'; injection E' as <-; discriminate).
  rewrite (proj1 (@banner_wake_up example_library DebugBuild 100 false greeting
                    ne' fresh_engine 700 eq_refl E Hne eq_refl
                    ltac:(lia) ltac:(lia)));
    [reflexivity | lia].
Defined.

(** ** What the manager leaves alone *)

Section Manager_frame.

Context {M : CursorMotion}.

Lemma NotificationEngine_apply_other : forall b ne fb fb' r c,
  NotificationEngine_apply b ne fb = Some fb' ->
  r <> 0 -> ~ targeted (notification_elements ne) r c ->
  get_cell fb' r c = get_cell fb r c.
Proof.
  intros b ne fb fb' r c Happ Hr Hfree. unfold NotificationEngine_apply in Happ.
  destruct (notification_elements ne) as [|e rest] eqn:El.
  - now inversion Happ.
  - destruct (c_assert b (get_width (ds fb) >? 0)) as [[]|];
      [|discriminate Happ].
    destruct (c_assert b (get_height (ds fb) >? 0)) as [[]|];
      [|discriminate Happ].
    cbv beta iota zeta delta [bind] in Happ.
    rewrite (OverlayEngine_apply_other b (e :: rest) _ fb' r c Happ Hfree).
    transitivity
      (get_cell (draw_bar 0 (Z.to_nat (get_width (ds fb))) fb) r c).
    + now destruct (_ =? 0).
    + apply draw_bar_other. now left.
Qed.

(** [OverlayManager::apply] changes a cell below row 0 only where an element
    points: a cell that no notification element targets, and that no
    prediction left after scoring and culling targets when the score is above
    3, is after the call what it was before. *)
Theorem OverlayManager_apply_frame : forall b now m fb m' fb' r c,
  OverlayManager_apply b now m fb = Some (m', fb') ->
  r <> 0 ->
  ~ targeted (notification_elements (notifications m)) r c ->
  (score (predictions m') > 3 ->
   ~ targeted (elements (predictions m')) r c) ->
  get_cell fb' r c = get_cell fb r c.
Proof.
  intros b now m fb m' fb' r c Happ Hr Hnote Hpred.
  unfold OverlayManager_apply in Happ.
  set (p := cull now fb (calculate_score now fb (predictions m))) in *.
  destruct (if score p >? 3 then OverlayEngine_apply b (elements p) fb
            else Some fb) as [fb1|] eqn:Egate; [|discriminate Happ].
  simpl in Happ.
  destruct (NotificationEngine_apply b (notifications m) fb1) as [fb2|] eqn:En;
    [|discriminate Happ].
  simpl in Happ. inversion Happ; subst m' fb'. simpl in Hpred.
  rewrite (NotificationEngine_apply_other _ _ _ _ r c En Hr Hnote).
  destruct (score p >? 3) eqn:Es.
  - apply (OverlayEngine_apply_other _ _ _ _ r c Egate).
    apply Hpred. apply Z.gtb_lt in Es. lia.
  - now inversion Egate.
Qed.

End Manager_frame.

Lemma OverlayManager_apply_frame_witness :
  match @OverlayManager_apply snapping_motion DebugBuild 50 busy_manager
          (screen 2 4 0 0) with
  | Some (_, fb') => get_cell fb' 1 1 = blank
  | None => False
  end.
Proof.
  destruct (@OverlayManager_apply snapping_motion DebugBuild 50 busy_manager
              (screen 2 4 0 0)) as [[m' fb']|] eqn:E;
    [|vm_compute in E; discriminate E].
  rewrite (@OverlayManager_apply_frame snapping_motion DebugBuild 50
             busy_manager (screen 2 4 0 0) m' fb' 1 1 E); [reflexivity|lia| |].
  - intros (e & oc & Hin & Hoc & Hrow & _). simpl in Hin.
    destruct Hin as [<-|[]]. inversion Hoc; subst oc. discriminate Hrow.
  - intros _ (e & oc & Hin & Hoc & Hrow & _).
    pose proof E as E'. vm_compute in E'. injection E' as <- _.
    simpl in Hin. destruct Hin as [<-|[]].
    inversion Hoc; subst oc. discriminate Hrow.
Defined.
